(** * Artist clustering: a shallow embedding of
    [artist_clustering.py] and [modified_artist_clustering.py].

    Modelling choices.
    - A CSV row is a Python dict from column name to a value; after
      [load_data] every value is either a float or a string that did not
      look like a decimal number.  We model it as [gmap string value].
    - Python floats are modelled by exact rationals [Q]; Python's [float]
      applied to a string is the external parser [py_float], which returns
      [None] exactly when Python raises [ValueError].  The strings that
      Python parses to [nan] or [inf] are outside the model.
    - Python dicts whose iteration order matters ([profile.items()],
      [profiles.keys()]) are association lists in insertion order.
    - Exceptions are the constructors of [py_error], threaded through the
      [result] monad.
    - The Gurobi solver is an external capability: a function from the
      integer program built by [cluster_artists] to a [solution]; its
      contract (optimal solution or infeasibility) is [solver_contract]. *)

From Stdlib Require Import QArith Qabs Qminmax Lqa Ascii.
From stdpp Require Import base gmap strings list.
Open Scope Q_scope.

(* ------------------------------------------------------------------ *)
(** ** Python values, errors and rows *)

Inductive value : Type :=
| VNum (q : Q)
| VStr (s : string).

Inductive py_error : Type :=
| KeyError (k : string)
| TypeError
| ZeroDivisionError
| AttributeError.

Inductive result (A : Type) : Type :=
| Ok (a : A)
| Err (e : py_error).
Arguments Ok {A} a.
Arguments Err {A} e.

Definition bind {A B} (m : result A) (k : A -> result B) : result B :=
  match m with Ok a => k a | Err e => Err e end.

Notation "'let*' x ':=' m 'in' k" := (bind m (fun x => k))
  (at level 200, x name, m at level 100, k at level 200).

Abbreviation row := (gmap string value).

(** [float(v)] for the values a row can hold: a float is returned as it
    is, a string goes through Python's parser. *)
Definition py_to_float (py_float : string -> option Q) (v : value) : option Q :=
  match v with
  | VNum q => Some q
  | VStr s => py_float s
  end.

(** [row.get(feature, 0)] *)
Definition row_get (r : row) (k : string) (d : value) : value :=
  match r !! k with Some v => v | None => d end.

(** The diagnostic log written by [print] in [calculate_distance]. *)
Inductive log_entry : Type :=
| NonNumeric (feature : string).

(** Python's [x < y] on floats. *)
Definition Qlt_bool (x y : Q) : bool := negb (Qle_bool y x).

(** Python [max(distances)]: the first maximal element. *)
Fixpoint py_max (x : Q) (l : list Q) : Q :=
  match l with
  | [] => x
  | y :: l' => py_max (if Qlt_bool x y then y else x) l'
  end.

(** [f'Distance_to_{name}'] *)
Definition dist_key (name : string) : string :=
  String.append "Distance_to_" name.

(** A small decimal parser (optional sign, ASCII digits, at most one
    dot), used as a concrete instance of [py_float] in the examples below;
    it agrees with Python's [float] on the strings made of ASCII digits
    with at most one dot and at least one digit, and rejects strings such
    as ["N/A"] or a superscript digit that Python rejects too. *)
Fixpoint parse_digits (s : string) (acc : Z) (scale : positive) (dot : bool)
  : option (Z * positive) :=
  match s with
  | EmptyString => Some (acc, scale)
  | String c s' =>
      if Ascii.eqb c "."%char then
        if dot then None else parse_digits s' acc scale true
      else
        let n := Ascii.nat_of_ascii c in
        if (48 <=? n)%nat && (n <=? 57)%nat then
          parse_digits s' (acc * 10 + Z.of_nat (n - 48))%Z
            (if dot then scale * 10 else scale)%positive dot
        else None
  end.

Definition parse_decimal (s : string) : option Q :=
  let body := match s with String "-"%char s' => s' | _ => s end in
  let sign := match s with String "-"%char _ => (-1)%Z | _ => 1%Z end in
  match body with
  | EmptyString => None
  | _ => match parse_digits body 0 1 false with
         | Some (n, d) => Some (Qmake (sign * n) d)
         | None => None
         end
  end.

(* ------------------------------------------------------------------ *)
(** ** [artist_clustering.py]: one ideal profile, weighted distance *)

Module AC.

Section Defs.
Variable py_float : string -> option Q.

(** The loop of [calculate_distance(row, ideal, weights)]: [acc] is
    [distance], [log] the lines printed so far. *)
Fixpoint distance_loop (r : row) (ideal : list (string * Q))
    (weights : gmap string Q) (acc : Q) (log : list log_entry)
    : Q * list log_entry :=
  match ideal with
  | [] => (acc, log)
  | (feature, ideal_value) :: rest =>
      let weight := match weights !! feature with Some w => w | None => 1 end in
      match py_to_float py_float (row_get r feature (VNum 0)) with
      | Some row_value =>
          distance_loop r rest weights
            (acc + weight * Qabs (row_value - ideal_value)) log
      | None =>
          distance_loop r rest weights
            (acc + weight * ideal_value) (log ++ [NonNumeric feature])
      end
  end.

Definition calculate_distance (r : row) (ideal : list (string * Q))
    (weights : gmap string Q) : Q * list log_entry :=
  distance_loop r ideal weights 0 [].

Definition calculate_all_distances (data : list row)
    (ideal : list (string * Q)) (weights : gmap string Q) : list row :=
  map (fun r => <["Distance_to_Ideal" := VNum (calculate_distance r ideal weights).1]> r)
    data.
End Defs.

Definition ideal_artist : list (string * Q) :=
  [("Number of Songs (Spotify)", 3);
   ("Monthly listeners (Spotify)", 5000);
   ("Total Streams (Spotify)", 10000);
   ("Fan Retention Rate (Spotify)", 10);
   ("Playlist Reach (Spotify)", 10000);
   ("Platform Playlists appearence (Spotify)", 1);
   ("Non-platform playlists (Spotify)", 50);
   ("Spotify Following", 1000);
   ("Instagram Following", 1000);
   ("TikTok Following", 10000)]%Q.

Definition weights : gmap string Q :=
  list_to_map
  [("Number of Songs (Spotify)", 1);
   ("Monthly listeners (Spotify)", 2);
   ("Total Streams (Spotify)", 2);
   ("Fan Retention Rate (Spotify)", 3#2);
   ("Playlist Reach (Spotify)", 3#2);
   ("Platform Playlists appearence (Spotify)", 1);
   ("Non-platform playlists (Spotify)", 1);
   ("Spotify Following", 1);
   ("Instagram Following", 1);
   ("TikTok Following", 1)]%Q.

(** [cluster_artists(data, min_ready_artists)]: the integer program has one
    binary variable per row (1 = 'Ready'); its objective coefficients are
    the [Distance_to_Ideal] fields. *)
Record ilp1 : Type := {
  n1 : nat;
  cost1 : list Q;
  min_ready : Z }.

Inductive solution1 : Type :=
| Solved1 (x : nat -> Q)
| NoSolution1.

(** [x[i] * data[i]['Distance_to_Ideal']] for every row, in order. *)
Fixpoint costs1 (data : list row) : result (list Q) :=
  match data with
  | [] => Ok []
  | r :: rs =>
      match r !! "Distance_to_Ideal" with
      | None => Err (KeyError "Distance_to_Ideal")
      | Some (VStr _) => Err TypeError
      | Some (VNum d) => let* cs := costs1 rs in Ok (d :: cs)
      end
  end.

(** [data[i]['Cluster'] = 'Ready' if x[i].X > 0.5 else 'Not Ready'];
    reading [.X] without a solution raises. *)
Fixpoint label_rows1 (s : solution1) (i : nat) (rows : list row)
  : result (list row) :=
  match rows with
  | [] => Ok []
  | r :: rs =>
      match s with
      | NoSolution1 => Err AttributeError
      | Solved1 x =>
          let r' := <["Cluster" := VStr (if Qlt_bool (1#2) (x i)
                                         then "Ready" else "Not Ready")]> r in
          let* rs' := label_rows1 s (S i) rs in Ok (r' :: rs')
      end
  end.

Definition cluster_artists (solve : ilp1 -> solution1) (data : list row)
    (min_ready_artists : Z) : result (list row) :=
  let* c := costs1 data in
  label_rows1 (solve {| n1 := length data; cost1 := c;
                        min_ready := min_ready_artists |}) 0 data.

End AC.

(* ------------------------------------------------------------------ *)
(** ** [modified_artist_clustering.py]: several profiles, integer program *)

Module MAC.

Record profile_entry : Type := {
  profile : list (string * Q);
  weight : Q }.

Section Defs.
Variable py_float : string -> option Q.

(** The loop of [calculate_distance(row, profile)] (no feature weights). *)
Fixpoint distance_loop (r : row) (p : list (string * Q)) (acc : Q)
    (log : list log_entry) : Q * list log_entry :=
  match p with
  | [] => (acc, log)
  | (feature, ideal_value) :: rest =>
      match py_to_float py_float (row_get r feature (VNum 0)) with
      | Some row_value =>
          distance_loop r rest (acc + Qabs (row_value - ideal_value)) log
      | None =>
          distance_loop r rest (acc + ideal_value) (log ++ [NonNumeric feature])
      end
  end.

Definition calculate_distance (r : row) (p : list (string * Q))
  : Q * list log_entry :=
  distance_loop r p 0 [].

(** The inner loop of [calculate_all_distances]: the row is updated after
    each profile and the next distance is computed on the updated row. *)
Fixpoint add_distances (r : row) (ps : list (string * profile_entry)) : row :=
  match ps with
  | [] => r
  | (cluster_name, cluster_data) :: ps' =>
      add_distances
        (<[dist_key cluster_name :=
             VNum (calculate_distance r (profile cluster_data)).1]> r) ps'
  end.
End Defs.

(** [[row[k] for row in data]] *)
Fixpoint column (data : list row) (k : string) : result (list value) :=
  match data with
  | [] => Ok []
  | r :: rs =>
      match r !! k with
      | None => Err (KeyError k)
      | Some v => let* vs := column rs k in Ok (v :: vs)
      end
  end.

(** [max] and [/=] raise [TypeError] on a string. *)
Fixpoint floats (vs : list value) : result (list Q) :=
  match vs with
  | [] => Ok []
  | VNum q :: vs' => let* qs := floats vs' in Ok (q :: qs)
  | VStr _ :: _ => Err TypeError
  end.

(** One iteration of [normalize_distances]: [max(distances) if distances
    else 1], then [row[k] /= max_distance] for every row; float division
    by zero raises. *)
Definition normalize_column (data : list row) (cluster_name : string)
  : result (list row) :=
  let k := dist_key cluster_name in
  let* vs := column data k in
  let* distances := floats vs in
  let max_distance := match distances with
                      | [] => 1
                      | d :: ds => py_max d ds
                      end in
  if Qeq_bool max_distance 0 then
    match data with [] => Ok data | _ => Err ZeroDivisionError end
  else Ok (zip_with (fun r d => <[k := VNum (d / max_distance)]> r)
             data distances).

Fixpoint normalize_names (data : list row) (names : list string)
  : result (list row) :=
  match names with
  | [] => Ok data
  | n :: ns => let* d := normalize_column data n in normalize_names d ns
  end.

Definition normalize_distances (data : list row)
    (profiles : list (string * profile_entry)) : result (list row) :=
  normalize_names data (map fst profiles).

Definition calculate_all_distances (py_float : string -> option Q)
    (data : list row) (profiles : list (string * profile_entry))
  : result (list row) :=
  normalize_distances (map (fun r => add_distances py_float r profiles) data)
    profiles.

(** The integer program of [cluster_artists]: [x[i, j]] binary for
    [i < n_rows], [j < n_cols]; [cost] holds the objective coefficient of
    every [x[i, j]]; every column sum is at least [min_count]. *)
Record ilp : Type := {
  n_rows : nat;
  n_cols : nat;
  cost : list (list Q);
  min_count : nat }.

(** The solver's answer: the values [x[i, j].X], or no solution. *)
Inductive solution : Type :=
| Solved (x : nat -> nat -> Q)
| NoSolution.

Definition penalty (cluster_name : string) : Q :=
  if String.eqb cluster_name "Not Ready" then 10 else 0.

(** [data[i][f'Distance_to_{cluster_name}'] + penalty] for one row. *)
Fixpoint row_costs (r : row) (names : list string) : result (list Q) :=
  match names with
  | [] => Ok []
  | nm :: ns =>
      match r !! dist_key nm with
      | None => Err (KeyError (dist_key nm))
      | Some (VStr _) => Err TypeError
      | Some (VNum d) => let* cs := row_costs r ns in Ok ((d + penalty nm) :: cs)
      end
  end.

Fixpoint cost_matrix (data : list row) (names : list string)
  : result (list (list Q)) :=
  match data with
  | [] => Ok []
  | r :: rs =>
      let* c := row_costs r names in
      let* cs := cost_matrix rs names in Ok (c :: cs)
  end.

(** [max(1, len(data) // len(profiles))] *)
Definition min_artists (n k : nat) : result nat :=
  if (k =? 0)%nat then Err ZeroDivisionError else Ok (Nat.max 1 (n / k)).

Definition build_model (data : list row)
    (profiles : list (string * profile_entry)) : result ilp :=
  let names := map fst profiles in
  let* c := cost_matrix data names in
  let* mn := min_artists (length data) (length names) in
  Ok {| n_rows := length data; n_cols := length names;
        cost := c; min_count := mn |}.

Fixpoint qsum (n : nat) (f : nat -> Q) : Q :=
  match n with
  | O => 0
  | S n' => qsum n' f + f n'
  end.

Definition cost_at (m : ilp) (i j : nat) : Q := nth j (nth i (cost m) []) 0.

Definition objective (m : ilp) (x : nat -> nat -> Q) : Q :=
  qsum (n_rows m) (fun i => qsum (n_cols m) (fun j => x i j * cost_at m i j)).

Definition forall_lt (n : nat) (p : nat -> bool) : bool := forallb p (seq 0 n).

Definition feasibleb (m : ilp) (x : nat -> nat -> Q) : bool :=
  forall_lt (n_rows m) (fun i => forall_lt (n_cols m)
    (fun j => Qeq_bool (x i j) 0 || Qeq_bool (x i j) 1))
  && forall_lt (n_rows m) (fun i => Qeq_bool (qsum (n_cols m) (fun j => x i j)) 1)
  && forall_lt (n_cols m) (fun j =>
       Qle_bool (inject_Z (Z.of_nat (min_count m))) (qsum (n_rows m) (fun i => x i j))).

Definition feasible (m : ilp) (x : nat -> nat -> Q) : Prop := feasibleb m x = true.

Definition optimal (m : ilp) (x : nat -> nat -> Q) : Prop :=
  feasible m x /\ forall y, feasible m y -> objective m x <= objective m y.

(** What the solving capability promises on a model: an optimal feasible
    assignment, or no solution only when none is feasible. *)
Definition solver_contract (solve : ilp -> solution) (m : ilp) : Prop :=
  match solve m with
  | Solved x => optimal m x
  | NoSolution => forall x, ~ feasible m x
  end.

Definition read_X (s : solution) (i j : nat) : result Q :=
  match s with Solved x => Ok (x i j) | NoSolution => Err AttributeError end.

(** The inner loop of the extraction: the first [j] with [x[i, j].X > 0.5]. *)
Fixpoint first_cluster (s : solution) (i j : nat) (names : list string)
  : result (option string) :=
  match names with
  | [] => Ok None
  | nm :: ns =>
      let* v := read_X s i j in
      if Qlt_bool (1#2) v then Ok (Some nm) else first_cluster s i (S j) ns
  end.

Fixpoint assign_clusters (s : solution) (i : nat) (names : list string)
    (rows : list row) : result (list row) :=
  match rows with
  | [] => Ok []
  | r :: rs =>
      let* lab := first_cluster s i 0 names in
      let r' := match lab with
                | Some nm => <["Cluster" := VStr nm]> r
                | None => r
                end in
      let* rs' := assign_clusters s (S i) names rs in Ok (r' :: rs')
  end.

Definition cluster_artists (solve : ilp -> solution) (data : list row)
    (profiles : list (string * profile_entry)) : result (list row) :=
  let* m := build_model data profiles in
  assign_clusters (solve m) 0 (map fst profiles) data.

Definition profiles : list (string * profile_entry) :=
  [("Ready",
    {| profile :=
         [("Number of Songs (Spotify)", 3);
          ("Monthly listeners (Spotify)", 5000);
          ("Total Streams (Spotify)", 10000);
          ("Fan Retention Rate (Spotify)", 10);
          ("Playlist Reach (Spotify)", 10000);
          ("Platform Playlists appearence (Spotify)", 1);
          ("Non-platform playlists (Spotify)", 50);
          ("Spotify Following", 1000);
          ("Instagram Following", 1000);
          ("TikTok Following", 10000)];
       weight := 1 |});
   ("Potential",
    {| profile :=
         [("Number of Songs (Spotify)", 2);
          ("Monthly listeners (Spotify)", 2000);
          ("Total Streams (Spotify)", 5000);
          ("Fan Retention Rate (Spotify)", 5);
          ("Playlist Reach (Spotify)", 5000);
          ("Platform Playlists appearence (Spotify)", 0);
          ("Non-platform playlists (Spotify)", 20);
          ("Spotify Following", 500);
          ("Instagram Following", 500);
          ("TikTok Following", 5000)];
       weight := 1#2 |});
   ("Not Ready",
    {| profile :=
         [("Number of Songs (Spotify)", 0);
          ("Monthly listeners (Spotify)", 0);
          ("Total Streams (Spotify)", 0);
          ("Fan Retention Rate (Spotify)", 0);
          ("Playlist Reach (Spotify)", 0);
          ("Platform Playlists appearence (Spotify)", 0);
          ("Non-platform playlists (Spotify)", 0);
          ("Spotify Following", 0);
          ("Instagram Following", 0);
          ("TikTok Following", 0)];
       weight := 0 |})].

End MAC.

(* ------------------------------------------------------------------ *)
(** ** The integer program of [artist_clustering.cluster_artists] *)

(** [x[i]] binary, [quicksum(x[i]) >= min_ready_artists], objective
    [quicksum(x[i] * data[i]['Distance_to_Ideal'])] minimised. *)
Module ACILP.

(** The program [cluster_artists(data, min_ready_artists)] hands to the
    solver. *)
Definition build_model1 (data : list row) (min_ready_artists : Z) : result AC.ilp1 :=
  let* c := AC.costs1 data in
  Ok {| AC.n1 := length data; AC.cost1 := c; AC.min_ready := min_ready_artists |}.

Definition objective1 (m : AC.ilp1) (x : nat -> Q) : Q :=
  MAC.qsum (AC.n1 m) (fun i => x i * nth i (AC.cost1 m) 0).

Definition feasible1b (m : AC.ilp1) (x : nat -> Q) : bool :=
  MAC.forall_lt (AC.n1 m) (fun i => Qeq_bool (x i) 0 || Qeq_bool (x i) 1)
  && Qle_bool (inject_Z (AC.min_ready m)) (MAC.qsum (AC.n1 m) x).

Definition feasible1 (m : AC.ilp1) (x : nat -> Q) : Prop := feasible1b m x = true.

Definition optimal1 (m : AC.ilp1) (x : nat -> Q) : Prop :=
  feasible1 m x /\ forall y, feasible1 m y -> objective1 m x <= objective1 m y.

(** What Gurobi guarantees: an optimal solution, or none when there is no
    feasible one. *)
Definition solver1_contract (solve : AC.ilp1 -> AC.solution1) (m : AC.ilp1) : Prop :=
  match solve m with
  | AC.Solved1 x => optimal1 m x
  | AC.NoSolution1 => forall x, ~ feasible1 m x
  end.

End ACILP.

(* ------------------------------------------------------------------ *)
(** ** [load_data(file_path)] (the same code in both files) *)

(** The records come as [csv.reader] returns them: lists of field
    strings, the first one being the header. A character of a field is an
    [ascii], read as the code point U+0000..U+00FF of the same number
    (Latin-1); characters beyond U+00FF are outside the model. *)
Module Load.

(** The characters '0'..'9'. *)
Definition is_ascii_digit (c : ascii) : bool :=
  let n := Ascii.nat_of_ascii c in (48 <=? n)%nat && (n <=? 57)%nat.

(** The characters below U+0100 for which Python's [str.isdigit] holds:
    '0'..'9' and the superscripts U+00B2, U+00B3 and U+00B9. *)
Definition is_digit (c : ascii) : bool :=
  let n := Ascii.nat_of_ascii c in
  is_ascii_digit c || (n =? 178)%nat || (n =? 179)%nat || (n =? 185)%nat.

Fixpoint all_digits (s : string) : bool :=
  match s with
  | EmptyString => true
  | String c s' => is_digit c && all_digits s'
  end.

(** [str.isdigit()]: non-empty, and every character a digit. *)
Definition isdigit (s : string) : bool :=
  match s with EmptyString => false | String _ _ => all_digits s end.

(** Every character is one of '0'..'9' (no superscript digit). *)
Fixpoint all_ascii_digits (s : string) : bool :=
  match s with
  | EmptyString => true
  | String c s' => is_ascii_digit c && all_ascii_digits s'
  end.

(** [s.replace('.', '', 1)] *)
Fixpoint replace_first_dot (s : string) : string :=
  match s with
  | EmptyString => EmptyString
  | String c s' => if Ascii.eqb c "."%char then s' else String c (replace_first_dot s')
  end.

(** A value of the dict built by [csv.DictReader]: a field, the [restval]
    [None] of a missing field, or the list of surplus fields. *)
Inductive cell : Type :=
| CStr (s : string)
| CNone
| CList (l : list string).

(** A Python dict with string keys, in insertion order: [d[k] = v]
    replaces the value of an existing key in place, or appends. *)
Fixpoint dict_set {V : Type} (d : list (string * V)) (k : string) (v : V)
  : list (string * V) :=
  match d with
  | [] => [(k, v)]
  | (k', v') :: d' => if String.eqb k k' then (k, v) :: d' else (k', v') :: dict_set d' k v
  end.

(** [DictReader.__next__] for a non-empty record:
    [d = dict(zip(fieldnames, row))]; surplus fields go to [d[None]]
    (returned separately, since [None] is not a string), missing ones are
    set to [None]. *)
Definition dict_reader_row (fieldnames rec : list string)
  : list (string * cell) * option (list string) :=
  let d := fold_left (fun d kv => dict_set d kv.1 (CStr kv.2)) (zip fieldnames rec) [] in
  let lf := length fieldnames in
  let lr := length rec in
  if (lf <? lr)%nat then (d, Some (drop lf rec))
  else if (lr <? lf)%nat then (fold_left (fun d k => dict_set d k CNone) (drop lr fieldnames) d, None)
  else (d, None).

Section Defs.
Variable py_float : string -> option Q.

(** [float(v) if v.replace('.', '', 1).isdigit() else v], where a
    [ValueError] of [float] stores [0]. *)
Definition convert_field (v : string) : value :=
  if isdigit (replace_first_dot v) then
    match py_float v with Some q => VNum q | None => VNum 0 end
  else VStr v.

(** [for key in row: row[key] = ...]; [.replace] on [None] or on a list
    raises [AttributeError], which is not caught. *)
Fixpoint convert_entries (d : list (string * cell)) : result (list (string * value)) :=
  match d with
  | [] => Ok []
  | (k, CStr v) :: d' => let* r := convert_entries d' in Ok ((k, convert_field v) :: r)
  | (_, _) :: _ => Err AttributeError
  end.

Definition load_row (fieldnames rec : list string) : result row :=
  let '(d, extra) := dict_reader_row fieldnames rec in
  let* kvs := convert_entries d in
  match extra with
  | Some _ => Err AttributeError
  | None => Ok (list_to_map kvs)
  end.

(** The loop over the reader; [DictReader] skips empty records. *)
Fixpoint load_rows (fieldnames : list string) (recs : list (list string))
  : result (list row) :=
  match recs with
  | [] => Ok []
  | [] :: recs' => load_rows fieldnames recs'
  | rec :: recs' =>
      let* r := load_row fieldnames rec in
      let* rs := load_rows fieldnames recs' in Ok (r :: rs)
  end.

(** The header is the first record, even an empty one; no record at all
    gives no row. *)
Definition load_data (recs : list (list string)) : result (list row) :=
  match recs with
  | [] => Ok []
  | header :: rest => load_rows header rest
  end.

End Defs.

(** The records [DictReader] yields a row for: the non-empty ones. *)
Definition data_records (recs : list (list string)) : list (list string) :=
  List.filter (fun rec => match rec with [] => false | _ :: _ => true end) recs.

End Load.

(* ------------------------------------------------------------------ *)
(** ** Reference definitions, read off the specification *)

Module SpecModel.

(** [ideal_value(feature)]: the profile's value for a feature. *)
Fixpoint ideal_of (p : list (string * Q)) (f : string) : Q :=
  match p with
  | [] => 0
  | (g, i) :: p' => if String.eqb g f then i else ideal_of p' f
  end.

(** [record_value(feature)] of a numeric record: 0 when absent. *)
Definition record_value (r : row) (f : string) : Q :=
  match r !! f with Some (VNum q) => q | _ => 0 end.

Definition qsum_list (l : list Q) : Q := foldr Qplus 0 l.

(** [sum over every feature in the profile of
    weight(feature) * |record_value(feature) - ideal_value(feature)|]. *)
Definition spec_distance (w : string -> Q) (r : row) (p : list (string * Q)) : Q :=
  qsum_list (map (fun f => w f * Qabs (record_value r f - ideal_of p f)) (map fst p)).

(** Every feature of the profile is absent from the record or a float. *)
Definition numericb (r : row) (p : list (string * Q)) : bool :=
  forallb (fun f => match r !! f with
                    | None | Some (VNum _) => true
                    | Some (VStr _) => false
                    end) (map fst p).

(** The record's value as a number, 0 when absent: [None] when it cannot be
    interpreted as numeric. *)
Definition record_number (py_float : string -> option Q) (r : row) (f : string)
  : option Q :=
  py_to_float py_float (row_get r f (VNum 0)).

(** The value [calculate_distance] compares with the ideal value: the
    number, or 0 when the feature is absent or not numeric. *)
Definition effective_value (py_float : string -> option Q) (r : row) (f : string) : Q :=
  match record_number py_float r f with Some q => q | None => 0 end.

(** [weights.get(feature, 1)] *)
Definition weight_of (w : gmap string Q) (f : string) : Q :=
  match w !! f with Some x => x | None => 1 end.

(** [data[i][f'Distance_to_{nm}']], the normalised distance of record [i]
    to cluster [nm] (0 when it is not a float). *)
Definition norm_distance (data : list row) (i : nat) (nm : string) : Q :=
  match nth i data ∅ !! dist_key nm with Some (VNum q) => q | _ => 0 end.

(** A profile configuration without its [weight] scalars. *)
Definition profile_view (ps : list (string * MAC.profile_entry)) : list (string * list (string * Q)) :=
  map (fun p => (fst p, MAC.profile (snd p))) ps.

(** The number of records labelled [nm]. *)
Definition cluster_count (out : list row) (nm : string) : nat :=
  length (List.filter (fun r => match r !! "Cluster" with
                           | Some (VStr s) => String.eqb s nm
                           | _ => false
                           end) out).

(** Every ideal value of the profile is non-negative. *)
Definition nonneg_idealsb (p : list (string * Q)) : bool :=
  forallb (fun fi => Qle_bool 0 fi.2) p.

(** Every feature of the profile has a positive weight. *)
Definition positive_weightsb (w : gmap string Q) (p : list (string * Q)) : bool :=
  forallb (fun fi => Qlt_bool 0 (weight_of w fi.1)) p.

End SpecModel.

(* ------------------------------------------------------------------ *)
(** ** Concrete inputs *)

Module Examples.

(** A row whose song count did not parse as a number. *)
Definition na_row : row := {[ "Number of Songs (Spotify)" := VStr "N/A" ]}.

(** The ideal values of the configured 'Not Ready' profile. *)
Definition not_ready_profile : list (string * Q) :=
  match MAC.profiles with
  | [_; _; (_, e)] => MAC.profile e
  | _ => []
  end.

(** A profile with a negative ideal value. *)
Definition neg_profile : list (string * Q) := [("Number of Songs (Spotify)", -5)].

Definition numeric_row : row :=
  list_to_map [("Artist Name", VStr "A");
               ("Number of Songs (Spotify)", VNum 4);
               ("Monthly listeners (Spotify)", VNum 1200);
               ("TikTok Following", VNum 30000)].

(** A row carrying the three normalised distances of [MAC.profiles]. *)
Definition drow (a b c : Q) : row :=
  list_to_map [(dist_key "Ready", VNum a); (dist_key "Potential", VNum b);
               (dist_key "Not Ready", VNum c)].

(** Three records, each at distance 0 from a different profile. *)
Definition ex_data : list row := [drow 0 1 1; drow 1 0 1; drow 1 1 0].

Definition ex_model : MAC.ilp :=
  match MAC.build_model ex_data MAC.profiles with
  | Ok m => m
  | Err _ => {| MAC.n_rows := 0; MAC.n_cols := 0; MAC.cost := []; MAC.min_count := 0 |}
  end.

(** Record [i] in cluster [i]. *)
Definition x_diag (i j : nat) : Q := if (i =? j)%nat then 1 else 0.

(** [MAC.profiles] with every [weight] set to 7. *)
Definition reweighted_profiles : list (string * MAC.profile_entry) :=
  map (fun p => (fst p, {| MAC.profile := MAC.profile (snd p); MAC.weight := 7 |}))
    MAC.profiles.

(** Whether a run returned, and what it returned. *)
Definition is_ok {A : Type} (r : result A) : bool :=
  match r with Ok _ => true | Err _ => false end.

Definition ok_or {A : Type} (r : result A) (dflt : A) : A :=
  match r with Ok a => a | Err _ => dflt end.

(** A profile with negative ideal values, and two records whose
    non-numeric entries make both distances to it negative ([-8] and [-2]). *)
Definition low_profiles : list (string * MAC.profile_entry) :=
  [("Low", {| MAC.profile := [("Number of Songs (Spotify)", -5);
                               ("Monthly listeners (Spotify)", -3)];
              MAC.weight := 1 |})].

Definition low_rows : list row :=
  [{[ "Number of Songs (Spotify)" := VStr "N/A"; "Monthly listeners (Spotify)" := VStr "N/A" ]};
   {[ "Number of Songs (Spotify)" := VStr "N/A" ]}].

(** A record with a single feature. *)
Definition songs_row : row := {[ "Number of Songs (Spotify)" := VNum 1 ]}.

(** A record that already has a [Distance_to_Ideal] field. *)
Definition stale_row : row := {[ "Distance_to_Ideal" := VNum 5 ]}.

(** A record carrying none of the profiles' features. *)
Definition artist_only : row := {[ "Artist Name" := VStr "A" ]}.

(** [ex_data] and a second record close to 'Ready'. *)
Definition ex4_data : list row := ex_data ++ [drow 0 1 1].

Definition ex4_model : MAC.ilp :=
  match MAC.build_model ex4_data MAC.profiles with
  | Ok m => m
  | Err _ => {| MAC.n_rows := 0; MAC.n_cols := 0; MAC.cost := []; MAC.min_count := 0 |}
  end.

(** [x_diag], with record 3 in cluster 'Ready' as well. *)
Definition x4 (i j : nat) : Q := if (i =? 3)%nat then x_diag 0 j else x_diag i j.

(** Two records at distances 0 and 5 from the ideal artist. *)
Definition ideal_rows : list row :=
  [{[ "Distance_to_Ideal" := VNum 0 ]}; {[ "Distance_to_Ideal" := VNum 5 ]}].

(** Record 0 'Ready', every other one 'Not Ready'. *)
Definition x_first (i : nat) : Q := if (i =? 0)%nat then 1 else 0.

End Examples.

(* ------------------------------------------------------------------ *)
(** * Proofs *)

Import SpecModel.

Section DistanceFacts.
Variable py_float : string -> option Q.

Definition ac_term (r : row) (w : gmap string Q) (fi : string * Q) : Q :=
  let '(f, i) := fi in
  match record_number py_float r f with
  | Some v => weight_of w f * Qabs (v - i)
  | None => weight_of w f * i
  end.

Definition mac_term (r : row) (fi : string * Q) : Q :=
  let '(f, i) := fi in
  match record_number py_float r f with
  | Some v => Qabs (v - i)
  | None => i
  end.

Definition bad_features (r : row) (p : list (string * Q)) : list log_entry :=
  flat_map (fun fi => match record_number py_float r fi.1 with
                      | Some _ => []
                      | None => [NonNumeric fi.1]
                      end) p.

Lemma ac_loop_fst (r : row) (w : gmap string Q) (p : list (string * Q)) acc log :
  (AC.distance_loop py_float r p w acc log).1 == acc + qsum_list (map (ac_term r w) p).
Proof.
  revert acc log; induction p as [|[f i] p IH]; intros acc log; simpl.
  - ring.
  - unfold record_number, weight_of.
    destruct (py_to_float py_float (row_get r f (VNum 0))); rewrite IH; ring.
Qed.

Lemma ac_loop_snd (r : row) (w : gmap string Q) (p : list (string * Q)) acc log :
  (AC.distance_loop py_float r p w acc log).2 = log ++ bad_features r p.
Proof.
  revert acc log; induction p as [|[f i] p IH]; intros acc log; simpl.
  - by rewrite app_nil_r.
  - unfold record_number.
    destruct (py_to_float py_float (row_get r f (VNum 0))); rewrite IH;
      [done | by rewrite <- app_assoc].
Qed.

Lemma mac_loop_fst (r : row) (p : list (string * Q)) acc log :
  (MAC.distance_loop py_float r p acc log).1 == acc + qsum_list (map (mac_term r) p).
Proof.
  revert acc log; induction p as [|[f i] p IH]; intros acc log; simpl.
  - ring.
  - unfold record_number.
    destruct (py_to_float py_float (row_get r f (VNum 0))); rewrite IH; ring.
Qed.

Lemma mac_loop_snd (r : row) (p : list (string * Q)) acc log :
  (MAC.distance_loop py_float r p acc log).2 = log ++ bad_features r p.
Proof.
  revert acc log; induction p as [|[f i] p IH]; intros acc log; simpl.
  - by rewrite app_nil_r.
  - unfold record_number.
    destruct (py_to_float py_float (row_get r f (VNum 0))); rewrite IH;
      [done | by rewrite <- app_assoc].
Qed.

End DistanceFacts.

(** ** Sums *)

Lemma qsum_list_map_ext {A} (g h : A -> Q) (l : list A) :
  (forall x, In x l -> g x == h x) ->
  qsum_list (map g l) == qsum_list (map h l).
Proof.
  induction l as [|a l IH]; intros H; simpl; [reflexivity|].
  rewrite (H a (or_introl eq_refl)), IH; [reflexivity|].
  intros x Hx; apply H; now right.
Qed.

Lemma qsum_list_app (l1 l2 : list Q) :
  qsum_list (l1 ++ l2) == qsum_list l1 + qsum_list l2.
Proof. induction l1 as [|x l1 IH]; simpl; [ring|]. rewrite IH. ring. Qed.

Lemma qsum_list_nonneg {A} (g : A -> Q) (l : list A) :
  (forall x, In x l -> 0 <= g x) -> 0 <= qsum_list (map g l).
Proof.
  induction l as [|a l IH]; intros H; simpl; [apply Qle_refl|].
  assert (0 <= g a) by (apply H; now left).
  assert (0 <= qsum_list (map g l)) by (apply IH; intros x Hx; apply H; now right).
  lra.
Qed.

Lemma qsum_list_zero {A} (g : A -> Q) (l : list A) :
  (forall x, In x l -> 0 <= g x) ->
  (qsum_list (map g l) == 0 <-> forall x, In x l -> g x == 0).
Proof.
  induction l as [|a l IH]; intros H; simpl.
  - split; [intros _ x []|intros _; reflexivity].
  - assert (Ha : 0 <= g a) by (apply H; now left).
    assert (Hl : forall x, In x l -> 0 <= g x) by (intros x Hx; apply H; now right).
    pose proof (qsum_list_nonneg g l Hl) as Hs.
    specialize (IH Hl).
    split.
    + intros Hz x [<-|Hx].
      * lra.
      * apply IH; [lra|exact Hx].
    + intros Hall.
      assert (g a == 0) by (apply Hall; now left).
      assert (qsum_list (map g l) == 0) by (apply IH; intros x Hx; apply Hall; now right).
      lra.
Qed.

Lemma Qabs_zero_iff (x : Q) : Qabs x == 0 <-> x == 0.
Proof.
  destruct (Qlt_le_dec x 0) as [Hx|Hx].
  - rewrite (Qabs_neg x) by lra; lra.
  - rewrite (Qabs_pos x) by lra; lra.
Qed.

Lemma Qabs_zero_minus (i : Q) : 0 <= i -> Qabs (0 - i) == i.
Proof. intros Hi; rewrite Qabs_neg by lra; ring. Qed.

(** ** Reading the rows *)

Lemma ideal_of_In (p : list (string * Q)) (f : string) (i : Q) :
  NoDup (map fst p) -> In (f, i) p -> ideal_of p f = i.
Proof.
  induction p as [|[g j] p IH]; simpl; intros Hnd Hin; [contradiction|].
  inversion Hnd as [|? ? Hg Hnd']; subst.
  destruct Hin as [Heq|Hin].
  - inversion Heq; subst. by rewrite String.eqb_refl.
  - destruct (String.eqb g f) eqn:E.
    + apply String.eqb_eq in E; subst.
      exfalso; apply Hg. apply list_elem_of_In, in_map_iff. by exists (f, i).
    + by apply IH.
Qed.

Lemma numericb_In (py_float : string -> option Q) (r : row) (p : list (string * Q)) f :
  numericb r p = true -> In f (map fst p) ->
  record_number py_float r f = Some (record_value r f).
Proof.
  unfold numericb; rewrite forallb_forall; intros H Hf.
  specialize (H f Hf).
  unfold record_number, record_value, row_get.
  destruct (r !! f) as [[q|s]|]; simpl; [done|discriminate|done].
Qed.

Lemma row_get_delete_insert0 (r : row) (f g : string) :
  row_get (delete f r) g (VNum 0) = row_get (<[f := VNum 0]> r) g (VNum 0).
Proof.
  unfold row_get. destruct (decide (f = g)) as [<-|Hne].
  - by rewrite lookup_delete_eq, lookup_insert_eq.
  - by rewrite lookup_delete_ne, lookup_insert_ne.
Qed.

Lemma ac_loop_rows (py_float : string -> option Q) (r1 r2 : row) w p acc log :
  (forall g, row_get r1 g (VNum 0) = row_get r2 g (VNum 0)) ->
  AC.distance_loop py_float r1 p w acc log = AC.distance_loop py_float r2 p w acc log.
Proof.
  intros H; revert acc log; induction p as [|[f i] p IH]; intros acc log; simpl;
    [done|]. rewrite H. by destruct (py_to_float py_float (row_get r2 f (VNum 0))).
Qed.

Lemma mac_loop_rows (py_float : string -> option Q) (r1 r2 : row) p acc log :
  (forall g, row_get r1 g (VNum 0) = row_get r2 g (VNum 0)) ->
  MAC.distance_loop py_float r1 p acc log = MAC.distance_loop py_float r2 p acc log.
Proof.
  intros H; revert acc log; induction p as [|[f i] p IH]; intros acc log; simpl;
    [done|]. rewrite H. by destruct (py_to_float py_float (row_get r2 f (VNum 0))).
Qed.

(** C3: for a record whose profile features are numeric or absent, both
    [calculate_distance] functions compute the (weighted, resp. unweighted)
    Manhattan distance of the specification, with an absent feature read
    as 0; and a record lacking a feature gets the same distance (and log)
    as the record carrying an explicit 0 for it. *)
Theorem calculate_distance_manhattan (py_float : string -> option Q)
    (w : gmap string Q) (r : row) (p : list (string * Q)) (f : string) :
  NoDup (map fst p) -> numericb r p = true ->
  ((AC.calculate_distance py_float r p w).1 == spec_distance (weight_of w) r p /\
   (MAC.calculate_distance py_float r p).1 == spec_distance (fun _ => 1) r p) /\
  (AC.calculate_distance py_float (delete f r) p w
     = AC.calculate_distance py_float (<[f := VNum 0]> r) p w /\
   MAC.calculate_distance py_float (delete f r) p
     = MAC.calculate_distance py_float (<[f := VNum 0]> r) p).
Proof.
  intros Hnd Hnum. split; [split|split].
  - unfold AC.calculate_distance. rewrite ac_loop_fst, Qplus_0_l.
    unfold spec_distance. rewrite map_map.
    apply qsum_list_map_ext. intros [g i] Hin; simpl.
    rewrite (ideal_of_In p g i Hnd Hin).
    rewrite (numericb_In py_float r p g Hnum) by
      (apply in_map_iff; by exists (g, i)).
    reflexivity.
  - unfold MAC.calculate_distance. rewrite mac_loop_fst, Qplus_0_l.
    unfold spec_distance. rewrite map_map.
    apply qsum_list_map_ext. intros [g i] Hin; simpl.
    rewrite (ideal_of_In p g i Hnd Hin).
    rewrite (numericb_In py_float r p g Hnum) by
      (apply in_map_iff; by exists (g, i)).
    ring.
  - apply ac_loop_rows, row_get_delete_insert0.
  - apply mac_loop_rows, row_get_delete_insert0.
Qed.

(** ** Non-negativity and zero distance *)

Lemma weighted_abs_sum (g e : string -> Q) (p : list (string * Q)) :
  (forall f i, In (f, i) p -> 0 < g f) ->
  0 <= qsum_list (map (fun fi => g fi.1 * Qabs (e fi.1 - fi.2)) p) /\
  (qsum_list (map (fun fi => g fi.1 * Qabs (e fi.1 - fi.2)) p) == 0 <->
   forall f i, In (f, i) p -> e f == i).
Proof.
  intros Hg.
  assert (Hnn : forall fi, In fi p -> 0 <= g fi.1 * Qabs (e fi.1 - fi.2)).
  { intros [f i] Hin; cbn [fst snd]. apply Qmult_le_0_compat.
    - apply Qlt_le_weak, (Hg f i Hin).
    - apply Qabs_nonneg. }
  split; [by apply qsum_list_nonneg|].
  rewrite (qsum_list_zero _ _ Hnn). split.
  - intros H f i Hin. specialize (H (f, i) Hin); cbn [fst snd] in H.
    destruct (Qmult_integral _ _ H) as [H0|H0].
    + pose proof (Hg f i Hin); lra.
    + pose proof (proj1 (Qabs_zero_iff (e f - i)) H0); lra.
  - intros H [f i] Hin; cbn [fst snd].
    assert (Hz : e f - i == 0) by (specialize (H f i Hin); lra).
    pose proof (proj2 (Qabs_zero_iff (e f - i)) Hz) as Ha. rewrite Ha; ring.
Qed.

Section PenaltyFacts.
Variable py_float : string -> option Q.

Lemma ac_term_effective (r : row) (w : gmap string Q) (f : string) (i : Q) :
  0 <= i ->
  ac_term py_float r w (f, i) == weight_of w f * Qabs (effective_value py_float r f - i).
Proof.
  intros Hi; unfold ac_term, effective_value.
  destruct (record_number py_float r f); [reflexivity|].
  rewrite Qabs_zero_minus by exact Hi; reflexivity.
Qed.

Lemma mac_term_effective (r : row) (f : string) (i : Q) :
  0 <= i ->
  mac_term py_float r (f, i) == 1 * Qabs (effective_value py_float r f - i).
Proof.
  intros Hi; unfold mac_term, effective_value.
  destruct (record_number py_float r f); [ring|].
  rewrite Qabs_zero_minus by exact Hi; ring.
Qed.

Lemma ac_distance_effective (r : row) (w : gmap string Q) (p : list (string * Q)) :
  (forall f i, In (f, i) p -> 0 <= i) ->
  (AC.calculate_distance py_float r p w).1
    == qsum_list (map (fun fi => weight_of w fi.1 *
                                 Qabs (effective_value py_float r fi.1 - fi.2)) p).
Proof.
  intros Hi. unfold AC.calculate_distance. rewrite ac_loop_fst, Qplus_0_l.
  apply qsum_list_map_ext. intros [f i] Hin. apply ac_term_effective, (Hi f i Hin).
Qed.

Lemma mac_distance_effective (r : row) (p : list (string * Q)) :
  (forall f i, In (f, i) p -> 0 <= i) ->
  (MAC.calculate_distance py_float r p).1
    == qsum_list (map (fun fi => (fun _ => 1) fi.1 *
                                 Qabs (effective_value py_float r fi.1 - fi.2)) p).
Proof.
  intros Hi. unfold MAC.calculate_distance. rewrite mac_loop_fst, Qplus_0_l.
  apply qsum_list_map_ext. intros [f i] Hin. apply mac_term_effective, (Hi f i Hin).
Qed.

Lemma record_number_insert_ne (r : row) (f g : string) (v : value) :
  f <> g -> record_number py_float (<[f := v]> r) g = record_number py_float r g.
Proof. intros Hne; unfold record_number, row_get. by rewrite lookup_insert_ne. Qed.

Lemma record_number_insert0 (r : row) (f : string) :
  record_number py_float (<[f := VNum 0]> r) f = Some 0.
Proof. unfold record_number, row_get. by rewrite lookup_insert_eq. Qed.

Lemma bad_features_In (r : row) (p : list (string * Q)) (f : string) :
  In f (map fst p) -> record_number py_float r f = None ->
  In (NonNumeric f) (bad_features py_float r p).
Proof.
  intros Hf Hn. apply in_map_iff in Hf as [[g i] [<- Hin]].
  unfold bad_features. apply in_flat_map. exists (g, i). split; [exact Hin|].
  cbn [fst] in *. rewrite Hn. now left.
Qed.

End PenaltyFacts.

Lemma nonneg_idealsb_spec (p : list (string * Q)) :
  nonneg_idealsb p = true -> forall f i, In (f, i) p -> 0 <= i.
Proof.
  unfold nonneg_idealsb; rewrite forallb_forall; intros H f i Hin.
  apply Qle_bool_iff, (H (f, i) Hin).
Qed.

Lemma positive_weightsb_spec (w : gmap string Q) (p : list (string * Q)) :
  positive_weightsb w p = true -> forall f i, In (f, i) p -> 0 < weight_of w f.
Proof.
  unfold positive_weightsb; rewrite forallb_forall; intros H f i Hin.
  specialize (H (f, i) Hin); cbn [fst] in H. unfold Qlt_bool in H.
  apply Qnot_le_lt. intros Hle. apply Qle_bool_iff in Hle. by rewrite Hle in H.
Qed.

Lemma effective_value_insert0 (py_float : string -> option Q) (r : row) (f : string) :
  record_number py_float r f = None ->
  forall g, effective_value py_float r g = effective_value py_float (<[f := VNum 0]> r) g.
Proof.
  intros Hn g. unfold effective_value. destruct (decide (f = g)) as [<-|Hne].
  - by rewrite Hn, record_number_insert0.
  - by rewrite record_number_insert_ne.
Qed.

Import Examples.

(** C5 (counterexample): with the configured 'Not Ready' profile (all
    ideal values 0), a record whose song count is the string "N/A" has
    distance 0 although that value is not a number equal to the ideal 0. *)
Lemma calculate_distance_zero_counterexample :
  ~ (forall (py_float : string -> option Q) (r : row) (p : list (string * Q)),
       0 <= (MAC.calculate_distance py_float r p).1 /\
       ((MAC.calculate_distance py_float r p).1 == 0 <->
        forall f i, In (f, i) p ->
          exists q, record_number py_float r f = Some q /\ q == i)).
Proof.
  intros H. destruct (H parse_decimal na_row not_ready_profile) as [_ [Hz _]].
  assert (Hd : (MAC.calculate_distance parse_decimal na_row not_ready_profile).1 == 0)
    by (vm_compute; reflexivity).
  destruct (Hz Hd "Number of Songs (Spotify)" 0) as [q [Hq _]].
  - simpl; left; reflexivity.
  - vm_compute in Hq; discriminate.
Qed.

(** C5 (amended): for positive feature weights and non-negative ideal
    values, both distances are non-negative, and a distance is 0 exactly
    when, on every feature of the profile, the record's value read as a
    number (0 when the feature is absent or its value is not numeric)
    equals the ideal value. *)
Theorem calculate_distance_nonneg_zero (py_float : string -> option Q)
    (w : gmap string Q) (r : row) (p : list (string * Q)) :
  nonneg_idealsb p = true -> positive_weightsb w p = true ->
  (0 <= (AC.calculate_distance py_float r p w).1 /\
   ((AC.calculate_distance py_float r p w).1 == 0 <->
    forall f i, In (f, i) p -> effective_value py_float r f == i)) /\
  (0 <= (MAC.calculate_distance py_float r p).1 /\
   ((MAC.calculate_distance py_float r p).1 == 0 <->
    forall f i, In (f, i) p -> effective_value py_float r f == i)).
Proof.
  intros Hi Hw. pose proof (nonneg_idealsb_spec p Hi) as Hi'. split.
  - rewrite (ac_distance_effective py_float r w p Hi').
    apply weighted_abs_sum, (positive_weightsb_spec w p Hw).
  - rewrite (mac_distance_effective py_float r p Hi').
    apply (weighted_abs_sum (fun _ => 1)). intros; reflexivity.
Qed.

Lemma calculate_distance_nonneg_zero_witness :
  nonneg_idealsb AC.ideal_artist = true /\
  positive_weightsb AC.weights AC.ideal_artist = true /\
  ((0 <= (AC.calculate_distance parse_decimal numeric_row AC.ideal_artist AC.weights).1 /\
   ((AC.calculate_distance parse_decimal numeric_row AC.ideal_artist AC.weights).1 == 0 <->
    forall f i, In (f, i) AC.ideal_artist -> effective_value parse_decimal numeric_row f == i)) /\
  (0 <= (MAC.calculate_distance parse_decimal numeric_row AC.ideal_artist).1 /\
   ((MAC.calculate_distance parse_decimal numeric_row AC.ideal_artist).1 == 0 <->
    forall f i, In (f, i) AC.ideal_artist -> effective_value parse_decimal numeric_row f == i))).
Proof.
  split; [vm_compute; reflexivity|]. split; [vm_compute; reflexivity|].
  apply calculate_distance_nonneg_zero; vm_compute; reflexivity.
Defined.

(** C6 (counterexample): for a profile with a negative ideal value, the
    penalty substituted for a non-numeric value is that negative number,
    which differs from the term an explicit 0 would give. *)
Lemma non_numeric_penalty_counterexample :
  ~ (forall (py_float : string -> option Q) (r : row) (p : list (string * Q)) (f : string),
       In f (map fst p) -> record_number py_float r f = None ->
       (MAC.calculate_distance py_float r p).1
         == (MAC.calculate_distance py_float (<[f := VNum 0]> r) p).1 /\
       In (NonNumeric f) (MAC.calculate_distance py_float r p).2).
Proof.
  intros H.
  destruct (H parse_decimal na_row neg_profile "Number of Songs (Spotify)") as [Hd _].
  - simpl; left; reflexivity.
  - vm_compute; reflexivity.
  - vm_compute in Hd; discriminate.
Qed.

(** C6 (amended): for every record and every feature [f] of the profile
    [p1 ++ (f, i) :: p2] whose record value cannot be interpreted as
    numeric, [calculate_distance] raises no error, the term it adds for
    [f] is [weight * i] (resp. [i] in the unweighted variant), whatever
    the sign of [i], and [f] is reported in the diagnostic log. When the
    profile's ideal values are non-negative (as all configured profiles),
    the distance also equals the one of the record carrying an explicit 0
    for that feature. *)
Theorem non_numeric_penalty (py_float : string -> option Q) (w : gmap string Q)
    (r : row) (p1 p2 : list (string * Q)) (f : string) (i : Q) :
  record_number py_float r f = None ->
  ((AC.calculate_distance py_float r (p1 ++ (f, i) :: p2) w).1
     == (AC.calculate_distance py_float r (p1 ++ p2) w).1 + weight_of w f * i /\
   In (NonNumeric f) (AC.calculate_distance py_float r (p1 ++ (f, i) :: p2) w).2) /\
  ((MAC.calculate_distance py_float r (p1 ++ (f, i) :: p2)).1
     == (MAC.calculate_distance py_float r (p1 ++ p2)).1 + i /\
   In (NonNumeric f) (MAC.calculate_distance py_float r (p1 ++ (f, i) :: p2)).2) /\
  (nonneg_idealsb (p1 ++ (f, i) :: p2) = true ->
   (AC.calculate_distance py_float r (p1 ++ (f, i) :: p2) w).1
     == (AC.calculate_distance py_float (<[f := VNum 0]> r) (p1 ++ (f, i) :: p2) w).1 /\
   (MAC.calculate_distance py_float r (p1 ++ (f, i) :: p2)).1
     == (MAC.calculate_distance py_float (<[f := VNum 0]> r) (p1 ++ (f, i) :: p2)).1).
Proof.
  intros Hn.
  assert (Hf : In f (map fst (p1 ++ (f, i) :: p2))).
  { rewrite map_app, in_app_iff. right. now left. }
  assert (Hcons : forall x l, qsum_list (x :: l) = x + qsum_list l) by reflexivity.
  split; [|split]; [split|split|].
  - unfold AC.calculate_distance. rewrite !ac_loop_fst, !map_app, !qsum_list_app.
    cbn [map]. rewrite Hcons.
    unfold ac_term at 2; rewrite Hn. ring.
  - unfold AC.calculate_distance; rewrite ac_loop_snd. by apply bad_features_In.
  - unfold MAC.calculate_distance. rewrite !mac_loop_fst, !map_app, !qsum_list_app.
    cbn [map]. rewrite Hcons.
    unfold mac_term at 2; rewrite Hn. ring.
  - unfold MAC.calculate_distance; rewrite mac_loop_snd. by apply bad_features_In.
  - intros Hi. pose proof (nonneg_idealsb_spec _ Hi) as Hi'.
    pose proof (effective_value_insert0 py_float r f Hn) as He.
    split.
    + rewrite !(ac_distance_effective py_float _ w _ Hi').
      apply qsum_list_map_ext; intros [g j] _; cbn [fst snd]. by rewrite He.
    + rewrite !(mac_distance_effective py_float _ _ Hi').
      apply qsum_list_map_ext; intros [g j] _; cbn [fst snd]. by rewrite He.
Qed.

Lemma non_numeric_penalty_witness :
  record_number parse_decimal na_row "Number of Songs (Spotify)" = None /\
  (((AC.calculate_distance parse_decimal na_row ([] ++ neg_profile) AC.weights).1
     == (AC.calculate_distance parse_decimal na_row ([] ++ []) AC.weights).1
        + weight_of AC.weights "Number of Songs (Spotify)" * (-5) /\
    In (NonNumeric "Number of Songs (Spotify)")
       (AC.calculate_distance parse_decimal na_row ([] ++ neg_profile) AC.weights).2) /\
   ((MAC.calculate_distance parse_decimal na_row ([] ++ neg_profile)).1
     == (MAC.calculate_distance parse_decimal na_row ([] ++ [])).1 + (-5) /\
    In (NonNumeric "Number of Songs (Spotify)")
       (MAC.calculate_distance parse_decimal na_row ([] ++ neg_profile)).2)) /\
  nonneg_idealsb ([] ++ AC.ideal_artist) = true /\
  (AC.calculate_distance parse_decimal na_row ([] ++ AC.ideal_artist) AC.weights).1
     == (AC.calculate_distance parse_decimal
           (<["Number of Songs (Spotify)" := VNum 0]> na_row) ([] ++ AC.ideal_artist)
           AC.weights).1 /\
  (MAC.calculate_distance parse_decimal na_row ([] ++ AC.ideal_artist)).1
     == (MAC.calculate_distance parse_decimal
           (<["Number of Songs (Spotify)" := VNum 0]> na_row) ([] ++ AC.ideal_artist)).1.
Proof.
  assert (Hn : record_number parse_decimal na_row "Number of Songs (Spotify)" = None)
    by (vm_compute; reflexivity).
  split; [exact Hn|].
  split.
  - destruct (non_numeric_penalty parse_decimal AC.weights na_row [] []
                "Number of Songs (Spotify)" (-5) Hn) as [Ha [Hm _]].
    split; [exact Ha | exact Hm].
  - assert (Hi : nonneg_idealsb ([] ++ AC.ideal_artist) = true) by (vm_compute; reflexivity).
    split; [exact Hi|].
    exact (proj2 (proj2 (non_numeric_penalty parse_decimal AC.weights na_row []
             (tl AC.ideal_artist) "Number of Songs (Spotify)" 3 Hn)) Hi).
Defined.

Lemma calculate_distance_manhattan_witness :
  NoDup (map fst AC.ideal_artist) /\ numericb numeric_row AC.ideal_artist = true /\
  (((AC.calculate_distance parse_decimal numeric_row AC.ideal_artist AC.weights).1
      == spec_distance (weight_of AC.weights) numeric_row AC.ideal_artist /\
    (MAC.calculate_distance parse_decimal numeric_row AC.ideal_artist).1
      == spec_distance (fun _ => 1) numeric_row AC.ideal_artist) /\
   (AC.calculate_distance parse_decimal (delete "TikTok Following" numeric_row)
      AC.ideal_artist AC.weights
    = AC.calculate_distance parse_decimal (<["TikTok Following" := VNum 0]> numeric_row)
      AC.ideal_artist AC.weights /\
    MAC.calculate_distance parse_decimal (delete "TikTok Following" numeric_row)
      AC.ideal_artist
    = MAC.calculate_distance parse_decimal (<["TikTok Following" := VNum 0]> numeric_row)
      AC.ideal_artist)).
Proof.
  assert (Hnd : NoDup (map fst AC.ideal_artist))
    by (apply (bool_decide_unpack _); vm_compute; exact I).
  split; [exact Hnd|]. split; [vm_compute; reflexivity|].
  apply calculate_distance_manhattan; [exact Hnd | vm_compute; reflexivity].
Defined.

(** ** Finite sums over indices *)

Lemma qsum_ext (n : nat) (f g : nat -> Q) :
  (forall k, (k < n)%nat -> f k == g k) -> MAC.qsum n f == MAC.qsum n g.
Proof.
  induction n as [|n IH]; intros H; simpl; [reflexivity|].
  rewrite IH by (intros k Hk; apply H; lia). rewrite (H n) by lia. reflexivity.
Qed.

Lemma qsum_nonneg (n : nat) (f : nat -> Q) :
  (forall k, (k < n)%nat -> 0 <= f k) -> 0 <= MAC.qsum n f.
Proof.
  induction n as [|n IH]; intros H; simpl; [apply Qle_refl|].
  assert (0 <= MAC.qsum n f) by (apply IH; intros k Hk; apply H; lia).
  assert (0 <= f n) by (apply H; lia). lra.
Qed.

Lemma qsum_le (n : nat) (f g : nat -> Q) :
  (forall k, (k < n)%nat -> f k <= g k) -> MAC.qsum n f <= MAC.qsum n g.
Proof.
  induction n as [|n IH]; intros H; simpl; [apply Qle_refl|].
  assert (MAC.qsum n f <= MAC.qsum n g) by (apply IH; intros k Hk; apply H; lia).
  assert (f n <= g n) by (apply H; lia). lra.
Qed.

Lemma qsum_zero (n : nat) (f : nat -> Q) :
  (forall k, (k < n)%nat -> 0 <= f k) -> MAC.qsum n f == 0 ->
  forall k, (k < n)%nat -> f k == 0.
Proof.
  induction n as [|n IH]; intros Hnn Hz k Hk; simpl in *; [lia|].
  assert (0 <= MAC.qsum n f) by (apply qsum_nonneg; intros j Hj; apply Hnn; lia).
  assert (0 <= f n) by (apply Hnn; lia).
  destruct (Nat.eq_dec k n) as [->|Hne]; [lra|].
  apply IH; [intros j Hj; apply Hnn; lia | lra | lia].
Qed.

Lemma qsum_plus (n : nat) (f g : nat -> Q) :
  MAC.qsum n (fun k => f k + g k) == MAC.qsum n f + MAC.qsum n g.
Proof. induction n as [|n IH]; simpl; [ring|]. rewrite IH; ring. Qed.

Lemma qsum_const (n : nat) (c : Q) :
  MAC.qsum n (fun _ => c) == inject_Z (Z.of_nat n) * c.
Proof.
  induction n as [|n IH]; simpl; [ring|]. rewrite IH.
  rewrite Nat2Z.inj_succ, <- Z.add_1_r, inject_Z_plus. ring.
Qed.

Lemma qsum_swap (n m : nat) (f : nat -> nat -> Q) :
  MAC.qsum n (fun i => MAC.qsum m (fun j => f i j)) == MAC.qsum m (fun j => MAC.qsum n (fun i => f i j)).
Proof.
  induction n as [|n IH]; simpl.
  - symmetry. rewrite qsum_const; ring.
  - rewrite IH. rewrite <- qsum_plus. reflexivity.
Qed.

Lemma qsum_shift (n : nat) (f : nat -> Q) :
  MAC.qsum (S n) f == f O + MAC.qsum n (fun k => f (S k)).
Proof.
  induction n as [|n IH]; simpl in *; [ring|]. rewrite IH. ring.
Qed.

(** Changing one summand. *)
Lemma qsum_update (n a : nat) (f : nat -> Q) (v : Q) :
  (a < n)%nat ->
  MAC.qsum n (fun k => if (k =? a)%nat then v else f k) == MAC.qsum n f - f a + v.
Proof.
  induction n as [|n IH]; intros Ha; simpl; [lia|].
  destruct (Nat.eq_dec a n) as [->|Hne].
  - rewrite Nat.eqb_refl.
    rewrite (qsum_ext n _ f) by (intros k Hk; destruct (Nat.eqb_spec k n); [lia|reflexivity]).
    ring.
  - destruct (Nat.eqb_spec n a) as [|_]; [lia|].
    rewrite IH by lia. ring.
Qed.

(** A binary family summing to 1 has exactly one 1. *)
Lemma binary_sum_one (n : nat) (f : nat -> Q) :
  (forall k, (k < n)%nat -> f k == 0 \/ f k == 1) -> MAC.qsum n f == 1 ->
  exists j, (j < n)%nat /\ f j == 1 /\ forall k, (k < n)%nat -> k <> j -> f k == 0.
Proof.
  induction n as [|n IH]; intros Hb Hs; simpl in Hs.
  - discriminate.
  - destruct (Hb n (Nat.lt_succ_diag_r n)) as [H0|H1].
    + destruct IH as [j [Hj [Hfj Hoth]]].
      * intros k Hk; apply Hb; lia.
      * lra.
      * exists j; split; [lia|]; split; [exact Hfj|].
        intros k Hk Hne. destruct (Nat.eq_dec k n) as [->|]; [exact H0|].
        apply Hoth; lia.
    + exists n; split; [lia|]; split; [exact H1|].
      intros k Hk Hne.
      apply (qsum_zero n f); [|lra|lia].
      intros j Hj. destruct (Hb j ltac:(lia)) as [->| ->]; lra.
Qed.

(** ** The feasible set of the integer program *)

Lemma forall_lt_spec (n : nat) (p : nat -> bool) :
  MAC.forall_lt n p = true <-> forall k, (k < n)%nat -> p k = true.
Proof.
  unfold MAC.forall_lt; rewrite forallb_forall. split.
  - intros H k Hk; apply H, in_seq; lia.
  - intros H k Hk; apply in_seq in Hk; apply H; lia.
Qed.

Lemma feasible_spec (m : MAC.ilp) (x : nat -> nat -> Q) :
  MAC.feasible m x <->
  (forall i j, (i < MAC.n_rows m)%nat -> (j < MAC.n_cols m)%nat ->
     x i j == 0 \/ x i j == 1) /\
  (forall i, (i < MAC.n_rows m)%nat -> MAC.qsum (MAC.n_cols m) (fun j => x i j) == 1) /\
  (forall j, (j < MAC.n_cols m)%nat ->
     inject_Z (Z.of_nat (MAC.min_count m)) <= MAC.qsum (MAC.n_rows m) (fun i => x i j)).
Proof.
  unfold MAC.feasible, MAC.feasibleb.
  rewrite !andb_true_iff, !forall_lt_spec.
  split.
  - intros [[Hb Hr] Hc]. split; [|split].
    + intros i j Hi Hj. specialize (Hb i Hi). rewrite forall_lt_spec in Hb.
      specialize (Hb j Hj). apply orb_true_iff in Hb as [H|H];
        apply Qeq_bool_iff in H; auto.
    + intros i Hi. apply Qeq_bool_iff, Hr, Hi.
    + intros j Hj. apply Qle_bool_iff, Hc, Hj.
  - intros [Hb [Hr Hc]]. split; [split|].
    + intros i Hi. apply forall_lt_spec. intros j Hj.
      apply orb_true_iff. destruct (Hb i j Hi Hj) as [H|H];
        [left|right]; apply Qeq_bool_iff, H.
    + intros i Hi. apply Qeq_bool_iff, Hr, Hi.
    + intros j Hj. apply Qle_bool_iff, Hc, Hj.
Qed.

(** A feasible assignment puts at least [min_count] records in each of the
    [n_cols] clusters, and each record in one cluster. *)
Lemma feasible_capacity (m : MAC.ilp) (x : nat -> nat -> Q) :
  MAC.feasible m x -> (MAC.min_count m * MAC.n_cols m <= MAC.n_rows m)%nat.
Proof.
  intros Hf. apply feasible_spec in Hf as [_ [Hr Hc]].
  assert (H1 : MAC.qsum (MAC.n_rows m) (fun i => MAC.qsum (MAC.n_cols m) (fun j => x i j))
               == inject_Z (Z.of_nat (MAC.n_rows m))).
  { rewrite (qsum_ext _ _ (fun _ => 1)) by (intros; by apply Hr).
    rewrite qsum_const; ring. }
  assert (H2 : inject_Z (Z.of_nat (MAC.n_cols m)) * inject_Z (Z.of_nat (MAC.min_count m))
               <= MAC.qsum (MAC.n_cols m) (fun j => MAC.qsum (MAC.n_rows m) (fun i => x i j))).
  { rewrite <- qsum_const. apply qsum_le. intros; by apply Hc. }
  rewrite <- qsum_swap, H1, <- inject_Z_mult, <- Zle_Qle in H2. lia.
Qed.

Lemma build_model_shape (data : list row) (profiles : list (string * MAC.profile_entry))
    (m : MAC.ilp) :
  MAC.build_model data profiles = Ok m ->
  MAC.n_rows m = length data /\ MAC.n_cols m = length profiles /\
  MAC.min_count m = Nat.max 1 (length data / length profiles) /\
  length profiles <> 0%nat.
Proof.
  unfold MAC.build_model. destruct (MAC.cost_matrix data (map fst profiles)); [|discriminate].
  simpl. unfold MAC.min_artists. rewrite length_map.
  destruct (Nat.eqb_spec (length profiles) 0); [discriminate|].
  simpl. intros H; injection H as <-. simpl. lia.
Qed.

Lemma assign_clusters_nosolution (i : nat) (names : list string) (rows : list row) :
  names <> [] -> rows <> [] -> MAC.assign_clusters MAC.NoSolution i names rows = Err AttributeError.
Proof. destruct names, rows; simpl; congruence. Qed.

(** C4 (counterexample): with no record at all, the integer program of the
    three configured profiles is infeasible ([3 * 1 > 0]), yet
    [cluster_artists] returns the empty list instead of failing. *)
Lemma cluster_artists_infeasible_counterexample :
  ~ (forall (solve : MAC.ilp -> MAC.solution) (data : list row)
            (profiles : list (string * MAC.profile_entry)),
       (Nat.max 1 (length data / length profiles) * length profiles > length data)%nat ->
       (forall m, MAC.build_model data profiles = Ok m -> MAC.solver_contract solve m) ->
       exists e, MAC.cluster_artists solve data profiles = Err e).
Proof.
  intros H. destruct (H (fun _ => MAC.NoSolution) [] MAC.profiles) as [e He].
  - simpl; lia.
  - intros m Hm. unfold MAC.solver_contract. intros x Hf.
    pose proof (build_model_shape _ _ _ Hm) as [Hn [Hk [Hmin _]]].
    pose proof (feasible_capacity m x Hf) as Hc. rewrite Hn, Hk, Hmin in Hc.
    simpl in Hc; lia.
  - vm_compute in He. discriminate.
Qed.

(** C4 (amended): when [max(1, N // K) * K > N] (that is, fewer records
    than clusters) the integer program is infeasible; with at least one
    record, [cluster_artists] then raises (reading [x[0, 0].X] fails) and
    labels no record, while with no record it returns the empty list. *)
Theorem cluster_artists_infeasible (solve : MAC.ilp -> MAC.solution) (data : list row)
    (profiles : list (string * MAC.profile_entry)) :
  (Nat.max 1 (length data / length profiles) * length profiles > length data)%nat ->
  (forall m, MAC.build_model data profiles = Ok m -> MAC.solver_contract solve m) ->
  ((1 <= length data)%nat ->
   match MAC.build_model data profiles with
   | Ok _ => MAC.cluster_artists solve data profiles = Err AttributeError
   | Err e => MAC.cluster_artists solve data profiles = Err e
   end) /\
  (data = [] -> MAC.cluster_artists solve data profiles = Ok []).
Proof.
  intros Hgt Hc. split.
  - intros Hn. unfold MAC.cluster_artists.
    destruct (MAC.build_model data profiles) as [m|e] eqn:Hb; simpl; [|reflexivity].
    pose proof (build_model_shape _ _ _ Hb) as [Hr [Hk [Hmin Hk0]]].
    specialize (Hc m eq_refl). unfold MAC.solver_contract in Hc.
    destruct (solve m) as [x|].
    + exfalso. pose proof (feasible_capacity m x (proj1 Hc)) as Hcap.
      rewrite Hr, Hk, Hmin in Hcap. lia.
    + apply assign_clusters_nosolution.
      * destruct profiles; simpl in *; [lia|discriminate].
      * destruct data; simpl in *; [lia|discriminate].
  - intros ->. unfold MAC.cluster_artists, MAC.build_model. simpl.
    unfold MAC.min_artists. rewrite length_map.
    destruct (Nat.eqb_spec (length profiles) 0) as [E|_]; [rewrite E in Hgt; simpl in Hgt; lia|].
    reflexivity.
Qed.

Lemma cluster_artists_infeasible_witness :
  (Nat.max 1 (length [drow 0 0 0] / length MAC.profiles) * length MAC.profiles
     > length [drow 0 0 0])%nat /\
  (forall m, MAC.build_model [drow 0 0 0] MAC.profiles = Ok m ->
     MAC.solver_contract (fun _ => MAC.NoSolution) m) /\
  (((1 <= length [drow 0 0 0])%nat ->
    match MAC.build_model [drow 0 0 0] MAC.profiles with
    | Ok _ => MAC.cluster_artists (fun _ => MAC.NoSolution) [drow 0 0 0] MAC.profiles
              = Err AttributeError
    | Err e => MAC.cluster_artists (fun _ => MAC.NoSolution) [drow 0 0 0] MAC.profiles
              = Err e
    end) /\
   ([drow 0 0 0] = [] ->
    MAC.cluster_artists (fun _ => MAC.NoSolution) [drow 0 0 0] MAC.profiles = Ok [])).
Proof.
  assert (Hgt : (Nat.max 1 (length [drow 0 0 0] / length MAC.profiles) * length MAC.profiles
                 > length [drow 0 0 0])%nat) by (simpl; lia).
  assert (Hc : forall m, MAC.build_model [drow 0 0 0] MAC.profiles = Ok m ->
                 MAC.solver_contract (fun _ => MAC.NoSolution) m).
  { intros m Hm. unfold MAC.solver_contract. intros x Hf.
    pose proof (build_model_shape _ _ _ Hm) as [Hn [Hk [Hmin _]]].
    pose proof (feasible_capacity m x Hf) as Hcap. rewrite Hn, Hk, Hmin in Hcap.
    simpl in Hcap; lia. }
  split; [exact Hgt|]. split; [exact Hc|].
  exact (cluster_artists_infeasible (fun _ => MAC.NoSolution) [drow 0 0 0] MAC.profiles Hgt Hc).
Defined.

(** ** Extracting the assignment *)

Lemma Qlt_bool_half_one (v : Q) : v == 1 -> Qlt_bool (1#2) v = true.
Proof.
  intros Hv. unfold Qlt_bool. destruct (Qle_bool v (1#2)) eqn:E; [|reflexivity].
  apply Qle_bool_iff in E. lra.
Qed.

Lemma Qlt_bool_half_zero (v : Q) : v == 0 -> Qlt_bool (1#2) v = false.
Proof.
  intros Hv. unfold Qlt_bool.
  assert (E : Qle_bool v (1#2) = true) by (apply Qle_bool_iff; lra). by rewrite E.
Qed.

Lemma first_cluster_unique (x : nat -> nat -> Q) (i : nat) (names : list string)
    (j0 j : nat) :
  (j0 <= j < j0 + length names)%nat -> x i j == 1 ->
  (forall k, (j0 <= k < j0 + length names)%nat -> k <> j -> x i k == 0) ->
  MAC.first_cluster (MAC.Solved x) i j0 names = Ok (Some (nth (j - j0) names ""%string)).
Proof.
  revert j0; induction names as [|nm ns IH]; intros j0 Hj H1 H0;
    cbn [length] in *; [lia|].
  cbn [MAC.first_cluster MAC.read_X bind].
  destruct (Nat.eq_dec j0 j) as [<-|Hne].
  - rewrite Qlt_bool_half_one by exact H1. by rewrite Nat.sub_diag.
  - rewrite Qlt_bool_half_zero by (apply H0; lia).
    rewrite IH; [| lia | exact H1 | intros k Hk; apply H0; lia].
    destruct (j - j0)%nat as [|n] eqn:E; [lia|].
    by replace (j - S j0)%nat with n by lia.
Qed.

Lemma assign_clusters_solved (x : nat -> nat -> Q) (names : list string)
    (rows : list row) (i0 : nat) (out : list row) :
  (forall k, (k < length rows)%nat ->
     exists j, (j < length names)%nat /\ x (i0 + k)%nat j == 1 /\
       forall j', (j' < length names)%nat -> j' <> j -> x (i0 + k)%nat j' == 0) ->
  MAC.assign_clusters (MAC.Solved x) i0 names rows = Ok out ->
  length out = length rows /\
  forall k r, rows !! k = Some r ->
    exists j, (j < length names)%nat /\ x (i0 + k)%nat j == 1 /\
      out !! k = Some (<["Cluster" := VStr (nth j names ""%string)]> r).
Proof.
  revert i0 out; induction rows as [|r rows IH]; intros i0 out Hu Ha;
    cbn [MAC.assign_clusters] in Ha.
  - injection Ha as <-. split; [done|]. intros k r' Hk. by rewrite lookup_nil in Hk.
  - destruct (Hu 0%nat ltac:(simpl; lia)) as [j [Hj [H1 H0]]].
    rewrite Nat.add_0_r in H1, H0.
    rewrite (first_cluster_unique x i0 names 0 j) in Ha;
      [| lia | exact H1 | intros k Hk Hne; apply H0; lia].
    rewrite Nat.sub_0_r in Ha. cbn [bind] in Ha.
    destruct (MAC.assign_clusters (MAC.Solved x) (S i0) names rows) as [out'|e] eqn:Hrest;
      cbn [bind] in Ha; [|discriminate].
    injection Ha as <-.
    destruct (IH (S i0) out') as [Hlen Hk].
    + intros k Hk. destruct (Hu (S k) ltac:(simpl; lia)) as [j' Hj'].
      exists j'. by replace (S i0 + k)%nat with (i0 + S k)%nat by lia.
    + exact Hrest.
    + split; [simpl; lia|]. intros [|k] r' Hr'.
      * injection Hr' as <-. exists j. rewrite Nat.add_0_r. done.
      * destruct (Hk k r' Hr') as [j' Hj']. exists j'.
        by replace (i0 + S k)%nat with (S i0 + k)%nat by lia.
Qed.

Lemma filter_length_qsum (P : row -> bool) (l : list row) :
  inject_Z (Z.of_nat (length (List.filter P l)))
  == MAC.qsum (length l) (fun k => if P (nth k l ∅) then 1 else 0).
Proof.
  induction l as [|a l IH]; [reflexivity|].
  cbn [length]. rewrite qsum_shift. cbn [List.filter nth].
  change (MAC.qsum (length l) (fun k => if P (nth (S k) (a :: l) ∅) then 1 else 0))
    with (MAC.qsum (length l) (fun k => if P (nth k l ∅) then 1 else 0)).
  rewrite <- IH.
  destruct (P a); cbn [length]; [|ring].
  rewrite Nat2Z.inj_succ, <- Z.add_1_r, inject_Z_plus. ring.
Qed.

Lemma qsum_ge_term (n a : nat) (f : nat -> Q) :
  (forall k, (k < n)%nat -> 0 <= f k) -> (a < n)%nat -> f a <= MAC.qsum n f.
Proof.
  induction n as [|n IH]; intros Hnn Ha; simpl; [lia|].
  assert (0 <= MAC.qsum n f) by (apply qsum_nonneg; intros k Hk; apply Hnn; lia).
  destruct (Nat.eq_dec a n) as [->|Hne]; [lra|].
  assert (f a <= MAC.qsum n f) by (apply IH; [intros k Hk; apply Hnn; lia | lia]).
  assert (0 <= f n) by (apply Hnn; lia). lra.
Qed.

Lemma qsum_scale (n : nat) (f : nat -> Q) (c : Q) :
  MAC.qsum n (fun k => f k * c) == MAC.qsum n f * c.
Proof. induction n as [|n IH]; simpl; [ring|]. rewrite IH; ring. Qed.

(** Every feasible assignment pays at least [c0] per record in a column
    whose costs are all at least [c0]. *)
Lemma objective_lower_bound (m : MAC.ilp) (y : nat -> nat -> Q) (jn : nat) (c0 : Q) :
  (jn < MAC.n_cols m)%nat ->
  (forall i j, (i < MAC.n_rows m)%nat -> (j < MAC.n_cols m)%nat -> 0 <= MAC.cost_at m i j) ->
  (forall i, (i < MAC.n_rows m)%nat -> c0 <= MAC.cost_at m i jn) ->
  0 <= c0 -> MAC.feasible m y ->
  c0 * inject_Z (Z.of_nat (MAC.min_count m)) <= MAC.objective m y.
Proof.
  intros Hjn Hc Hc0 H0 Hy. apply feasible_spec in Hy as [Hb [_ Hcol]].
  assert (Hy0 : forall i j, (i < MAC.n_rows m)%nat -> (j < MAC.n_cols m)%nat -> 0 <= y i j)
    by (intros i j Hi Hj; destruct (Hb i j Hi Hj) as [-> | ->]; lra).
  apply Qle_trans with (MAC.qsum (MAC.n_rows m) (fun i => y i jn * c0)).
  - rewrite qsum_scale. specialize (Hcol jn Hjn).
    rewrite Qmult_comm. apply Qmult_le_compat_r; [exact Hcol | exact H0].
  - unfold MAC.objective. apply qsum_le. intros i Hi.
    apply Qle_trans with (y i jn * MAC.cost_at m i jn).
    + rewrite !(Qmult_comm (y i jn)).
      apply Qmult_le_compat_r; [apply Hc0 | apply Hy0]; auto.
    + apply (qsum_ge_term _ jn (fun j => y i j * MAC.cost_at m i j)); [|exact Hjn].
      intros k Hk. apply Qmult_le_0_compat; auto.
Qed.

(** The diagonal assignment is an optimal solution of [ex_model]. *)
Lemma result_ok {A : Type} (r : result A) (dflt : A) :
  is_ok r = true -> r = Ok (ok_or r dflt).
Proof. by destruct r. Qed.

Lemma ex_model_built : MAC.build_model ex_data MAC.profiles = Ok ex_model.
Proof. vm_compute; reflexivity. Qed.

Lemma ex_model_optimal : MAC.optimal ex_model x_diag.
Proof.
  split; [vm_compute; reflexivity|]. intros y Hy.
  assert (Hnn : MAC.forall_lt 3 (fun i => MAC.forall_lt 3 (fun j =>
                  Qle_bool 0 (MAC.cost_at ex_model i j))) = true)
    by (vm_compute; reflexivity).
  assert (Hnr : MAC.forall_lt 3 (fun i => Qle_bool 10 (MAC.cost_at ex_model i 2)) = true)
    by (vm_compute; reflexivity).
  pose proof (objective_lower_bound ex_model y 2 10) as Hlb.
  assert (Hobj : MAC.objective ex_model x_diag == 10) by (vm_compute; reflexivity).
  assert (Hmin : MAC.min_count ex_model = 1%nat) by (vm_compute; reflexivity).
  assert (Hsz : MAC.n_rows ex_model = 3%nat /\ MAC.n_cols ex_model = 3%nat)
    by (split; vm_compute; reflexivity).
  destruct Hsz as [Hr Hc]. rewrite Hmin in Hlb. rewrite Hobj.
  apply Qle_trans with (10 * inject_Z (Z.of_nat 1)); [vm_compute; discriminate|].
  apply Hlb; rewrite ?Hr, ?Hc.
  - lia.
  - intros i j Hi Hj. rewrite forall_lt_spec in Hnn. specialize (Hnn i Hi).
    rewrite forall_lt_spec in Hnn. apply Qle_bool_iff, Hnn, Hj.
  - intros i Hi. rewrite forall_lt_spec in Hnr. apply Qle_bool_iff, Hnr, Hi.
  - vm_compute; discriminate.
  - exact Hy.
Qed.

Lemma ex_contract (m : MAC.ilp) :
  MAC.build_model ex_data MAC.profiles = Ok m ->
  MAC.solver_contract (fun _ => MAC.Solved x_diag) m.
Proof.
  rewrite ex_model_built. intros H; injection H as <-. apply ex_model_optimal.
Qed.

(** C1 (counterexample): on an empty dataset the model is infeasible and
    the solver reports no solution, but [cluster_artists] returns the empty
    list, in which no cluster has [max(1, 0 // 3) = 1] member. *)
Lemma cluster_artists_assignment_counterexample :
  ~ (forall (solve : MAC.ilp -> MAC.solution) (data : list row)
            (profiles : list (string * MAC.profile_entry)) (out : list row),
       NoDup (map fst profiles) ->
       (forall m, MAC.build_model data profiles = Ok m -> MAC.solver_contract solve m) ->
       MAC.cluster_artists solve data profiles = Ok out ->
       (forall r, In r out -> exists nm, In nm (map fst profiles) /\
                                        r !! "Cluster" = Some (VStr nm)) /\
       (forall nm, In nm (map fst profiles) ->
          (Nat.max 1 (length data / length profiles) <= cluster_count out nm)%nat)).
Proof.
  intros H. destruct (H (fun _ => MAC.NoSolution) [] MAC.profiles []) as [_ Hc].
  - apply (bool_decide_unpack _); vm_compute; exact I.
  - intros m Hm. unfold MAC.solver_contract. intros x Hf.
    pose proof (build_model_shape _ _ _ Hm) as [Hn [Hk [Hmin _]]].
    pose proof (feasible_capacity m x Hf) as Hcap. rewrite Hn, Hk, Hmin in Hcap.
    simpl in Hcap; lia.
  - vm_compute; reflexivity.
  - specialize (Hc "Ready"%string (or_introl eq_refl)). vm_compute in Hc. lia.
Qed.

(** C1 (amended): on at least one record, when the solver honours its
    contract and [cluster_artists] returns, every record (and only the
    input records, in order) carries one label, a registered profile name,
    and every cluster has at least [max(1, N // K)] records. *)
Theorem cluster_artists_assignment (solve : MAC.ilp -> MAC.solution) (data : list row)
    (profiles : list (string * MAC.profile_entry)) (out : list row) :
  NoDup (map fst profiles) -> (1 <= length data)%nat ->
  (forall m, MAC.build_model data profiles = Ok m -> MAC.solver_contract solve m) ->
  MAC.cluster_artists solve data profiles = Ok out ->
  length out = length data /\
  (forall r, In r out -> exists nm, In nm (map fst profiles) /\
                                   r !! "Cluster" = Some (VStr nm)) /\
  (forall nm, In nm (map fst profiles) ->
     (Nat.max 1 (length data / length profiles) <= cluster_count out nm)%nat).
Proof.
  intros Hnd Hn Hcon Hout. unfold MAC.cluster_artists in Hout.
  destruct (MAC.build_model data profiles) as [m|e] eqn:Hb; cbn [bind] in Hout;
    [|discriminate].
  pose proof (build_model_shape _ _ _ Hb) as [Hr [Hk [Hmin Hk0]]].
  specialize (Hcon m eq_refl). unfold MAC.solver_contract in Hcon.
  destruct (solve m) as [x|] eqn:Hs.
  2:{ rewrite assign_clusters_nosolution in Hout; [discriminate| |].
      - destruct profiles; simpl in *; [lia|discriminate].
      - destruct data; simpl in *; [lia|discriminate]. }
  destruct Hcon as [Hfeas _]. apply feasible_spec in Hfeas as [Hbin [Hrow Hcol]].
  rewrite Hr, Hk in *.
  set (names := map fst profiles) in *.
  assert (HK : length names = length profiles) by apply length_map.
  assert (Hu : forall k, (k < length data)%nat ->
            exists j, (j < length names)%nat /\ x (0 + k)%nat j == 1 /\
              forall j', (j' < length names)%nat -> j' <> j -> x (0 + k)%nat j' == 0).
  { intros k Hkk. rewrite HK. apply binary_sum_one.
    - intros j Hj. by apply Hbin.
    - by apply Hrow. }
  destruct (assign_clusters_solved x names data 0 out Hu Hout) as [Hlen Hlab].
  split; [exact Hlen|]. split.
  - intros r Hin. apply list_elem_of_In, list_elem_of_lookup in Hin as [k Hk'].
    assert (Hkd : (k < length data)%nat)
      by (rewrite <- Hlen; apply lookup_lt_is_Some; by eexists).
    destruct (lookup_lt_is_Some_2 data k Hkd) as [r0 Hr0].
    destruct (Hlab k r0 Hr0) as [j [Hj [_ Hoj]]].
    rewrite Hk' in Hoj. injection Hoj as ->.
    exists (nth j names ""%string). split; [by apply nth_In|].
    by rewrite lookup_insert_eq.
  - intros nm Hnm. apply (In_nth _ _ ""%string) in Hnm as [j [Hj <-]].
    rewrite <- Hmin. apply Nat2Z.inj_le. rewrite Zle_Qle.
    apply Qle_trans with (MAC.qsum (length data) (fun i => x i j)); [apply Hcol; lia|].
    unfold cluster_count. rewrite filter_length_qsum, Hlen.
    apply Qle_lteq; right. apply qsum_ext. intros k Hkk.
    destruct (lookup_lt_is_Some_2 data k Hkk) as [r0 Hr0].
    destruct (Hlab k r0 Hr0) as [jk [Hjk [H1 Hoj]]]. cbn [Nat.add] in H1.
    rewrite (nth_lookup_Some out k ∅ _ Hoj), lookup_insert_eq.
    destruct (Nat.eq_dec jk j) as [->|Hne].
    + rewrite String.eqb_refl. rewrite H1; reflexivity.
    + destruct (String.eqb_spec (nth jk names ""%string) (nth j names ""%string)) as [E|_].
      * exfalso. apply Hne. apply NoDup_ListNoDup in Hnd.
        apply (proj1 (NoDup_nth names ""%string) Hnd); [lia|lia|exact E].
      * destruct (Hu k Hkk) as [j2 [_ [_ Hoth]]]. cbn [Nat.add] in Hoth.
        assert (jk = j2).
        { destruct (Nat.eq_dec jk j2) as [|Hne2]; [done|].
          exfalso. pose proof (Hoth jk Hjk Hne2). lra. }
        subst jk. rewrite (Hoth j) by (done || lia). reflexivity.
Qed.

Lemma cluster_artists_assignment_witness :
  NoDup (map fst MAC.profiles) /\ (1 <= length ex_data)%nat /\
  (forall m, MAC.build_model ex_data MAC.profiles = Ok m ->
     MAC.solver_contract (fun _ => MAC.Solved x_diag) m) /\
  exists out,
    MAC.cluster_artists (fun _ => MAC.Solved x_diag) ex_data MAC.profiles = Ok out /\
    (length out = length ex_data /\
     (forall r, In r out -> exists nm, In nm (map fst MAC.profiles) /\
                                      r !! "Cluster" = Some (VStr nm)) /\
     (forall nm, In nm (map fst MAC.profiles) ->
        (Nat.max 1 (length ex_data / length MAC.profiles) <= cluster_count out nm)%nat)).
Proof.
  assert (Hnd : NoDup (map fst MAC.profiles))
    by (apply (bool_decide_unpack _); vm_compute; exact I).
  split; [exact Hnd|]. split; [simpl; lia|]. split; [exact ex_contract|].
  destruct (MAC.cluster_artists (fun _ => MAC.Solved x_diag) ex_data MAC.profiles)
    as [out|e] eqn:Hout.
  - exists out. split; [reflexivity|].
    apply (cluster_artists_assignment (fun _ => MAC.Solved x_diag) ex_data MAC.profiles out
             Hnd ltac:(simpl; lia) ex_contract Hout).
  - exfalso. assert (Hok : is_ok (MAC.cluster_artists (fun _ => MAC.Solved x_diag) ex_data
                                  MAC.profiles) = true) by (vm_compute; reflexivity).
    rewrite Hout in Hok. discriminate.
Defined.

(** ** The objective of the integer program *)

Lemma row_costs_nth (r : row) (names : list string) (cs : list Q) :
  MAC.row_costs r names = Ok cs ->
  forall j, (j < length names)%nat ->
    nth j cs 0 = match r !! dist_key (nth j names ""%string) with
                 | Some (VNum q) => q | _ => 0 end + MAC.penalty (nth j names ""%string).
Proof.
  revert cs; induction names as [|nm ns IH]; intros cs Hc j Hj; cbn [length] in Hj; [lia|].
  cbn [MAC.row_costs] in Hc.
  destruct (r !! dist_key nm) as [[d|s]|] eqn:Hd; try discriminate.
  destruct (MAC.row_costs r ns) as [cs'|e] eqn:Hr; cbn [bind] in Hc; [|discriminate].
  injection Hc as <-. destruct j as [|j]; cbn [nth].
  - by rewrite Hd.
  - apply IH; [reflexivity|lia].
Qed.

Lemma cost_matrix_nth (data : list row) (names : list string) (c : list (list Q)) :
  MAC.cost_matrix data names = Ok c ->
  forall i, (i < length data)%nat -> MAC.row_costs (nth i data ∅) names = Ok (nth i c []).
Proof.
  revert c; induction data as [|r rs IH]; intros c Hc i Hi; cbn [length] in Hi; [lia|].
  cbn [MAC.cost_matrix] in Hc.
  destruct (MAC.row_costs r names) as [cr|e] eqn:Hr; cbn [bind] in Hc; [|discriminate].
  destruct (MAC.cost_matrix rs names) as [crs|e] eqn:Hrs; cbn [bind] in Hc; [|discriminate].
  injection Hc as <-. destruct i as [|i]; cbn [nth]; [exact Hr|].
  apply IH; [reflexivity|lia].
Qed.

(** The objective coefficient of [x[i, j]] is the record's distance to
    cluster [j] plus the cluster's penalty. *)
Lemma build_model_cost (data : list row) (profiles : list (string * MAC.profile_entry))
    (m : MAC.ilp) :
  MAC.build_model data profiles = Ok m ->
  forall i j, (i < length data)%nat -> (j < length profiles)%nat ->
    MAC.cost_at m i j = norm_distance data i (nth j (map fst profiles) ""%string)
                        + MAC.penalty (nth j (map fst profiles) ""%string).
Proof.
  unfold MAC.build_model. intros Hb i j Hi Hj.
  destruct (MAC.cost_matrix data (map fst profiles)) as [c|e] eqn:Hc; cbn [bind] in Hb;
    [|discriminate].
  destruct (MAC.min_artists (length data) (length (map fst profiles))); cbn [bind] in Hb;
    [|discriminate].
  injection Hb as <-. unfold MAC.cost_at; cbn [MAC.cost].
  apply (row_costs_nth (nth i data ∅)); [by apply cost_matrix_nth | by rewrite length_map].
Qed.

Lemma qsum_indicator (n a : nat) (g : nat -> Q) :
  (a < n)%nat -> MAC.qsum n (fun b => if (b =? a)%nat then g b else 0) == g a.
Proof.
  intros Ha.
  rewrite (qsum_ext n _ (fun b => if (b =? a)%nat then g a else 0)).
  - rewrite (qsum_update n a (fun _ => 0) (g a) Ha), qsum_const. ring.
  - intros b Hb. by destruct (Nat.eqb_spec b a) as [->|].
Qed.

(** Moving record [i] from cluster [jn] to cluster [j]: still feasible when
    [jn] keeps its minimum, and the objective changes by
    [cost i j - cost i jn]. *)
Definition move (x : nat -> nat -> Q) (i j : nat) (a b : nat) : Q :=
  if (a =? i)%nat then (if (b =? j)%nat then 1 else 0) else x a b.

Lemma move_feasible (m : MAC.ilp) (x : nat -> nat -> Q) (i jn j : nat) :
  MAC.feasible m x -> (i < MAC.n_rows m)%nat -> (jn < MAC.n_cols m)%nat ->
  (j < MAC.n_cols m)%nat -> j <> jn -> x i jn == 1 ->
  inject_Z (Z.of_nat (MAC.min_count m + 1)) <= MAC.qsum (MAC.n_rows m) (fun k => x k jn) ->
  MAC.feasible m (move x i j) /\
  MAC.objective m (move x i j) == MAC.objective m x - MAC.cost_at m i jn + MAC.cost_at m i j.
Proof.
  intros Hf Hi Hjn Hj Hne H1 Hcnt.
  pose proof Hf as Hf'. apply feasible_spec in Hf' as [Hb [Hr Hc]].
  destruct (binary_sum_one (MAC.n_cols m) (fun b => x i b)) as [j1 [Hj1 [Hx1 Hx0]]];
    [intros b Hbb; by apply Hb | by apply Hr |].
  assert (j1 = jn) as ->.
  { destruct (Nat.eq_dec j1 jn) as [|Hn1]; [done|].
    exfalso. pose proof (Hx0 jn Hjn (not_eq_sym Hn1)). lra. }
  assert (Hrow_i : forall b, (b < MAC.n_cols m)%nat ->
            x i b == if (b =? jn)%nat then 1 else 0).
  { intros b Hbb. destruct (Nat.eqb_spec b jn) as [->|Hbn]; [exact H1|by apply Hx0]. }
  split.
  - apply feasible_spec. split; [|split].
    + intros a b Ha Hbb. unfold move.
      destruct (a =? i)%nat; [destruct (b =? j)%nat; [right|left]; reflexivity|].
      by apply Hb.
    + intros a Ha. unfold move. destruct (Nat.eqb_spec a i) as [->|Hai].
      * rewrite (qsum_indicator _ j (fun _ => 1) Hj). reflexivity.
      * by apply Hr.
    + intros b Hbb. unfold move.
      rewrite (qsum_update _ i (fun a => x a b) _ Hi).
      specialize (Hc b Hbb). rewrite (Hrow_i b Hbb).
      destruct (Nat.eqb_spec b j) as [->|Hbj].
      * destruct (Nat.eqb_spec j jn) as [|_]; [lia|]. lra.
      * destruct (Nat.eqb_spec b jn) as [->|Hbn]; [|lra].
        rewrite Nat2Z.inj_add, inject_Z_plus in Hcnt. change (inject_Z (Z.of_nat 1)) with 1 in Hcnt.
        lra.
  - unfold MAC.objective.
    rewrite (qsum_ext _ _ (fun a => if (a =? i)%nat
                                    then MAC.qsum (MAC.n_cols m)
                                           (fun b => if (b =? j)%nat then MAC.cost_at m i b else 0)
                                    else MAC.qsum (MAC.n_cols m) (fun b => x a b * MAC.cost_at m a b))).
    2:{ intros a Ha. unfold move. destruct (Nat.eqb_spec a i) as [->|]; [|reflexivity].
        apply qsum_ext. intros b Hbb. destruct (b =? j)%nat; ring. }
    rewrite (qsum_update _ i (fun a => MAC.qsum (MAC.n_cols m) (fun b => x a b * MAC.cost_at m a b)) _ Hi).
    rewrite (qsum_indicator _ j (MAC.cost_at m i) Hj).
    rewrite (qsum_ext _ (fun b => x i b * MAC.cost_at m i b)
               (fun b => if (b =? jn)%nat then MAC.cost_at m i b else 0)).
    2:{ intros b Hbb. rewrite (Hrow_i b Hbb). destruct (b =? jn)%nat; ring. }
    rewrite (qsum_indicator _ jn (MAC.cost_at m i) Hjn). reflexivity.
Qed.

Lemma ex4_model_built : MAC.build_model ex4_data MAC.profiles = Ok ex4_model.
Proof. vm_compute; reflexivity. Qed.

Lemma ex4_model_optimal : MAC.optimal ex4_model x4.
Proof.
  split; [vm_compute; reflexivity|]. intros y Hy.
  assert (Hnn : MAC.forall_lt 4 (fun i => MAC.forall_lt 3 (fun j =>
                  Qle_bool 0 (MAC.cost_at ex4_model i j))) = true)
    by (vm_compute; reflexivity).
  assert (Hnr : MAC.forall_lt 4 (fun i => Qle_bool 10 (MAC.cost_at ex4_model i 2)) = true)
    by (vm_compute; reflexivity).
  pose proof (objective_lower_bound ex4_model y 2 10) as Hlb.
  assert (Hobj : MAC.objective ex4_model x4 == 10) by (vm_compute; reflexivity).
  assert (Hmin : MAC.min_count ex4_model = 1%nat) by (vm_compute; reflexivity).
  assert (Hsz : MAC.n_rows ex4_model = 4%nat /\ MAC.n_cols ex4_model = 3%nat)
    by (split; vm_compute; reflexivity).
  destruct Hsz as [Hr Hc]. rewrite Hmin in Hlb. rewrite Hobj.
  apply Qle_trans with (10 * inject_Z (Z.of_nat 1)); [vm_compute; discriminate|].
  apply Hlb; rewrite ?Hr, ?Hc.
  - lia.
  - intros i j Hi Hj. rewrite forall_lt_spec in Hnn. specialize (Hnn i Hi).
    rewrite forall_lt_spec in Hnn. apply Qle_bool_iff, Hnn, Hj.
  - intros i Hi. rewrite forall_lt_spec in Hnr. apply Qle_bool_iff, Hnr, Hi.
  - vm_compute; discriminate.
  - exact Hy.
Qed.

(** C7 (counterexample): in the optimal diagonal assignment of [ex_data],
    record 2 is in 'Not Ready' (penalty 10) although its normalised distance
    to 'Ready' is 1, not more than its distance 0 to 'Not Ready' plus 10:
    the minimum occupancy forces a record into the penalised cluster. *)
Lemma cluster_artists_penalty_counterexample :
  ~ (forall (data : list row) (profiles : list (string * MAC.profile_entry))
            (m : MAC.ilp) (x : nat -> nat -> Q) (i jn j : nat),
       MAC.build_model data profiles = Ok m -> MAC.optimal m x ->
       (i < length data)%nat -> (jn < length profiles)%nat ->
       (j < length profiles)%nat -> j <> jn ->
       0 < MAC.penalty (nth jn (map fst profiles) ""%string) -> x i jn == 1 ->
       norm_distance data i (nth jn (map fst profiles) ""%string)
         + MAC.penalty (nth jn (map fst profiles) ""%string)
       < norm_distance data i (nth j (map fst profiles) ""%string)).
Proof.
  intros H.
  pose proof (H ex_data MAC.profiles ex_model x_diag 2%nat 2%nat 0%nat ex_model_built ex_model_optimal)
    as Hc.
  assert (Hlt : norm_distance ex_data 2%nat (nth 2 (map fst MAC.profiles) ""%string)
                  + MAC.penalty (nth 2 (map fst MAC.profiles) ""%string)
                < norm_distance ex_data 2%nat (nth 0 (map fst MAC.profiles) ""%string)).
  { apply Hc; [vm_compute; lia | vm_compute; lia | vm_compute; lia | lia
              | vm_compute; reflexivity | vm_compute; reflexivity]. }
  vm_compute in Hlt. discriminate.
Qed.

(** C7 (amended): in every optimal assignment, a record [i] placed in a
    cluster [jn] that holds more than the minimum number of records pays no
    more there (normalised distance plus penalty) than in any other cluster
    [j]; for the penalised 'Not Ready' cluster, every other cluster's
    normalised distance for the record is at least its distance to
    'Not Ready' plus 10. A cluster at its minimum size may hold records
    that would pay less elsewhere. *)
Theorem cluster_artists_penalty_exchange (data : list row)
    (profiles : list (string * MAC.profile_entry)) (m : MAC.ilp) (x : nat -> nat -> Q)
    (i jn j : nat) :
  MAC.build_model data profiles = Ok m -> MAC.optimal m x ->
  (i < length data)%nat -> (jn < length profiles)%nat ->
  (j < length profiles)%nat -> j <> jn -> x i jn == 1 ->
  inject_Z (Z.of_nat (MAC.min_count m + 1)) <= MAC.qsum (length data) (fun k => x k jn) ->
  norm_distance data i (nth jn (map fst profiles) ""%string)
    + MAC.penalty (nth jn (map fst profiles) ""%string)
  <= norm_distance data i (nth j (map fst profiles) ""%string)
    + MAC.penalty (nth j (map fst profiles) ""%string).
Proof.
  intros Hb [Hf Hopt] Hi Hjn Hj Hne H1 Hcnt.
  destruct (build_model_shape _ _ _ Hb) as [Hr [Hc _]].
  rewrite <- !(build_model_cost data profiles m Hb) by assumption.
  rewrite <- Hr in Hi, Hcnt. rewrite <- Hc in Hjn, Hj.
  destruct (move_feasible m x i jn j Hf Hi Hjn Hj Hne H1 Hcnt) as [Hfy Hobj].
  pose proof (Hopt _ Hfy) as Hle. rewrite Hobj in Hle. lra.
Qed.

Lemma cluster_artists_penalty_exchange_witness :
  norm_distance ex4_data 3%nat "Ready" + MAC.penalty "Ready"
  <= norm_distance ex4_data 3%nat "Not Ready" + MAC.penalty "Not Ready".
Proof.
  apply (cluster_artists_penalty_exchange ex4_data MAC.profiles ex4_model x4 3%nat 0%nat 2%nat
           ex4_model_built ex4_model_optimal); vm_compute; try lia; try reflexivity.
  discriminate.
Defined.

(** C2 (code bug): a record with none of the features is at distance 0
    from 'Not Ready', whose ideal values are all 0. For the dataset made of
    that record alone the 'Not Ready' column is [[0.0]], its maximum is 0,
    and [row[k] /= max_distance] raises [ZeroDivisionError] instead of
    dividing by 1: the guard [max(distances) if distances else 1] covers
    only the empty dataset. *)
Theorem normalize_zero_column_raises (py_float : string -> option Q) :
  MAC.calculate_all_distances py_float [artist_only] MAC.profiles = Err ZeroDivisionError.
Proof. vm_compute. reflexivity. Qed.

Lemma profile_view_names (ps1 ps2 : list (string * MAC.profile_entry)) :
  profile_view ps1 = profile_view ps2 -> map fst ps1 = map fst ps2.
Proof.
  intros H. apply (f_equal (map fst)) in H. unfold profile_view in H.
  rewrite !map_map in H. exact H.
Qed.

Lemma add_distances_view (py_float : string -> option Q) (r : row)
    (ps1 ps2 : list (string * MAC.profile_entry)) :
  profile_view ps1 = profile_view ps2 ->
  MAC.add_distances py_float r ps1 = MAC.add_distances py_float r ps2.
Proof.
  revert r ps2; induction ps1 as [|[n1 e1] ps1 IH]; intros r [|[n2 e2] ps2] H;
    try discriminate; [reflexivity|].
  unfold profile_view in H; cbn [map fst snd] in H. injection H as -> Hp Hrest.
  cbn [MAC.add_distances]. rewrite Hp. apply IH. exact Hrest.
Qed.

(** [build_model] and the labelling read only the profile names. *)
Lemma build_model_names (data : list row) (ps1 ps2 : list (string * MAC.profile_entry)) :
  map fst ps1 = map fst ps2 -> MAC.build_model data ps1 = MAC.build_model data ps2.
Proof. intros H. unfold MAC.build_model. by rewrite H. Qed.

(** C10: two configurations that differ only in the [weight] scalars give
    the same distance fields, the same integer program and the same
    cluster assignment, on every dataset and for every solver. *)
Theorem profile_weights_irrelevant (py_float : string -> option Q)
    (solve : MAC.ilp -> MAC.solution) (data : list row)
    (ps1 ps2 : list (string * MAC.profile_entry)) :
  profile_view ps1 = profile_view ps2 ->
  MAC.calculate_all_distances py_float data ps1 = MAC.calculate_all_distances py_float data ps2 /\
  MAC.build_model data ps1 = MAC.build_model data ps2 /\
  MAC.cluster_artists solve data ps1 = MAC.cluster_artists solve data ps2.
Proof.
  intros H. pose proof (profile_view_names _ _ H) as Hn. split; [|split].
  - unfold MAC.calculate_all_distances, MAC.normalize_distances. rewrite Hn.
    f_equal. apply map_ext. intros r. by apply add_distances_view.
  - by apply build_model_names.
  - unfold MAC.cluster_artists. rewrite (build_model_names data _ _ Hn), Hn. reflexivity.
Qed.

Lemma profile_weights_irrelevant_witness :
  profile_view MAC.profiles = profile_view reweighted_profiles /\
  MAC.calculate_all_distances parse_decimal [numeric_row] MAC.profiles
    = MAC.calculate_all_distances parse_decimal [numeric_row] reweighted_profiles /\
  MAC.build_model [numeric_row] MAC.profiles = MAC.build_model [numeric_row] reweighted_profiles /\
  MAC.cluster_artists (fun _ => MAC.NoSolution) [numeric_row] MAC.profiles
    = MAC.cluster_artists (fun _ => MAC.NoSolution) [numeric_row] reweighted_profiles.
Proof.
  assert (H : profile_view MAC.profiles = profile_view reweighted_profiles)
    by (vm_compute; reflexivity).
  split; [exact H|].
  exact (profile_weights_irrelevant parse_decimal (fun _ => MAC.NoSolution) [numeric_row]
           MAC.profiles reweighted_profiles H).
Defined.

(** ** Which fields the pipeline writes *)

Lemma add_distances_frame (py_float : string -> option Q) (r : row)
    (ps : list (string * MAC.profile_entry)) (k : string) :
  ~ In k (map dist_key (map fst ps)) -> MAC.add_distances py_float r ps !! k = r !! k.
Proof.
  revert r; induction ps as [|[nm e] ps IH]; intros r Hk; [reflexivity|].
  cbn [map fst In] in Hk. cbn [MAC.add_distances].
  rewrite IH by tauto. rewrite lookup_insert_ne; [reflexivity|]. intros Heq. subst k. tauto.
Qed.

Lemma column_length (data : list row) (k : string) (vs : list value) :
  MAC.column data k = Ok vs -> length vs = length data.
Proof.
  revert vs; induction data as [|r rs IH]; intros vs H; cbn [MAC.column] in H.
  - by injection H as <-.
  - destruct (r !! k); [|discriminate].
    destruct (MAC.column rs k) eqn:Hc; cbn [bind] in H; [|discriminate].
    injection H as <-. cbn [length]. by rewrite (IH _ eq_refl).
Qed.

Lemma floats_length (vs : list value) (qs : list Q) :
  MAC.floats vs = Ok qs -> length qs = length vs.
Proof.
  revert qs; induction vs as [|[q|s] vs IH]; intros qs H; cbn [MAC.floats] in H.
  - by injection H as <-.
  - destruct (MAC.floats vs) eqn:Hf; cbn [bind] in H; [|discriminate].
    injection H as <-. cbn [length]. by rewrite (IH _ eq_refl).
  - discriminate.
Qed.

Lemma nth_zip_with {A B C : Type} (f : A -> B -> C) (l1 : list A) (l2 : list B)
    (i : nat) (a : A) (b : B) (c : C) :
  length l1 = length l2 -> (i < length l1)%nat ->
  nth i (zip_with f l1 l2) c = f (nth i l1 a) (nth i l2 b).
Proof.
  revert l2 i; induction l1 as [|x l1 IH]; intros [|y l2] i Hl Hi; cbn [length] in *;
    try lia.
  destruct i as [|i]; [reflexivity|]. cbn [zip_with nth]. apply IH; lia.
Qed.

Lemma length_zip_with_eq {A B C : Type} (f : A -> B -> C) (l1 : list A) (l2 : list B) :
  length l1 = length l2 -> length (zip_with f l1 l2) = length l1.
Proof.
  revert l2; induction l1 as [|x l1 IH]; intros [|y l2] Hl; cbn [length zip_with] in *;
    try lia. f_equal. apply IH. lia.
Qed.

(** One pass of [normalize_distances] writes only its own column, and
    writes a float there. *)
Lemma normalize_column_frame (data d : list row) (nm : string) :
  MAC.normalize_column data nm = Ok d ->
  length d = length data /\
  forall i, (i < length data)%nat ->
    (forall k, k <> dist_key nm -> nth i d ∅ !! k = nth i data ∅ !! k) /\
    exists q, nth i d ∅ !! dist_key nm = Some (VNum q).
Proof.
  unfold MAC.normalize_column. intros H.
  destruct (MAC.column data (dist_key nm)) as [vs|e] eqn:Hc; cbn [bind] in H; [|discriminate].
  destruct (MAC.floats vs) as [qs|e] eqn:Hf; cbn [bind] in H; [|discriminate].
  pose proof (column_length _ _ _ Hc) as Hl1. pose proof (floats_length _ _ Hf) as Hl2.
  destruct (Qeq_bool _ 0).
  - destruct data; [|discriminate]. injection H as <-. split; [reflexivity|].
    intros i Hi. cbn [length] in Hi. lia.
  - injection H as <-. split; [apply length_zip_with_eq; lia|].
    intros i Hi. rewrite (nth_zip_with _ _ _ i ∅ 0%Q) by lia. split.
    + intros k Hk. by rewrite lookup_insert_ne by congruence.
    + eexists. apply lookup_insert_eq.
Qed.

Lemma normalize_names_frame (data d : list row) (names : list string) :
  MAC.normalize_names data names = Ok d ->
  length d = length data /\
  forall i, (i < length data)%nat ->
    (forall k, ~ In k (map dist_key names) -> nth i d ∅ !! k = nth i data ∅ !! k) /\
    (forall k q, nth i data ∅ !! k = Some (VNum q) -> exists q', nth i d ∅ !! k = Some (VNum q')) /\
    (forall nm, In nm names -> exists q, nth i d ∅ !! dist_key nm = Some (VNum q)).
Proof.
  revert data; induction names as [|nm ns IH]; intros data H; cbn [MAC.normalize_names] in H.
  - injection H as <-. split; [reflexivity|]. intros i Hi.
    split; [done|]. split; [intros k q Hq; by exists q | done].
  - destruct (MAC.normalize_column data nm) as [d1|e] eqn:H1; cbn [bind] in H; [|discriminate].
    destruct (normalize_column_frame _ _ _ H1) as [Hl1 Hf1].
    destruct (IH _ H) as [Hl2 Hf2].
    split; [lia|]. intros i Hi.
    destruct (Hf1 i Hi) as [Hk1 [q1 Hq1]].
    destruct (Hf2 i ltac:(lia)) as [Hk2 [Hn2 Ha2]].
    split; [|split].
    + intros k Hk. cbn [map In] in Hk. rewrite Hk2 by tauto. apply Hk1. intros ->. tauto.
    + intros k q Hq. destruct (String.eq_dec k (dist_key nm)) as [->|Hne].
      * by apply (Hn2 _ q1).
      * apply (Hn2 _ q). by rewrite Hk1.
    + intros nm' [<-|Hin]; [by apply (Hn2 _ q1) | by apply Ha2].
Qed.

Lemma nth_map_row (f : row -> row) (data : list row) (i : nat) :
  (i < length data)%nat -> nth i (map f data) ∅ = f (nth i data ∅).
Proof.
  revert i; induction data as [|r rs IH]; intros [|i] Hi; cbn [length] in Hi; try lia;
    [reflexivity|]. cbn [map nth]. apply IH. lia.
Qed.

Lemma assign_clusters_frame (s : MAC.solution) (i0 : nat) (names : list string)
    (rows out : list row) :
  MAC.assign_clusters s i0 names rows = Ok out ->
  length out = length rows /\
  forall i k, (i < length rows)%nat -> k <> "Cluster"%string ->
    nth i out ∅ !! k = nth i rows ∅ !! k.
Proof.
  revert i0 out; induction rows as [|r rs IH]; intros i0 out H; cbn [MAC.assign_clusters] in H.
  - injection H as <-. split; [reflexivity|]. intros i k Hi. cbn [length] in Hi. lia.
  - destruct (MAC.first_cluster s i0 0 names) as [lab|e]; cbn [bind] in H; [|discriminate].
    destruct (MAC.assign_clusters s (S i0) names rs) as [rs'|e] eqn:Hr; cbn [bind] in H;
      [|discriminate].
    injection H as <-. destruct (IH _ _ Hr) as [Hl Hf].
    split; [cbn [length]; lia|]. intros [|i] k Hi Hk; cbn [nth].
    + destruct lab; [by rewrite lookup_insert_ne by congruence | reflexivity].
    + apply Hf; cbn [length] in Hi; [lia | exact Hk].
Qed.

Lemma label_rows1_frame (s : AC.solution1) (i0 : nat) (rows out : list row) :
  AC.label_rows1 s i0 rows = Ok out ->
  length out = length rows /\
  forall i, (i < length rows)%nat ->
    (forall k, k <> "Cluster"%string -> nth i out ∅ !! k = nth i rows ∅ !! k) /\
    exists nm, nth i out ∅ !! "Cluster" = Some (VStr nm).
Proof.
  revert i0 out; induction rows as [|r rs IH]; intros i0 out H; cbn [AC.label_rows1] in H.
  - injection H as <-. split; [reflexivity|]. intros i Hi. cbn [length] in Hi. lia.
  - destruct s as [x|]; [|discriminate].
    destruct (AC.label_rows1 (AC.Solved1 x) (S i0) rs) as [rs'|e] eqn:Hr; cbn [bind] in H;
      [|discriminate].
    injection H as <-. destruct (IH _ _ Hr) as [Hl Hf].
    split; [cbn [length]; lia|]. intros [|i] Hi; cbn [nth].
    + split; [intros k Hk; by rewrite lookup_insert_ne by congruence|].
      eexists. apply lookup_insert_eq.
    + apply Hf. cbn [length] in Hi. lia.
Qed.

(** C9 (counterexample): a record that already has a [Distance_to_Ideal]
    field loses its value; the pipeline overwrites a field of that name. *)
Lemma pipeline_frame_counterexample :
  ~ (forall (py_float : string -> option Q) (data : list row) (i : nat) (k : string)
            (v : value),
       (i < length data)%nat -> nth i data ∅ !! k = Some v ->
       nth i (AC.calculate_all_distances py_float data AC.ideal_artist AC.weights) ∅ !! k
         = Some v).
Proof.
  intros H.
  pose proof (H parse_decimal [stale_row] 0%nat "Distance_to_Ideal"%string (VNum 5)
                ltac:(cbn; lia) eq_refl) as Hc.
  vm_compute in Hc. discriminate.
Qed.

(** C9 (amended): the pipelines write only their own fields. In the
    multi-profile variant [calculate_all_distances] changes only the fields
    [Distance_to_<name>] of the profile names, each of which then holds a
    float, and [cluster_artists] changes only [Cluster]; in the single-profile
    variant [calculate_all_distances] changes only [Distance_to_Ideal], which
    then holds a float, and [cluster_artists] changes only [Cluster], which
    then holds a label. A field of the input with one of these names is
    overwritten; every other field keeps its value. *)
Theorem pipeline_frame (py_float : string -> option Q)
    (solve : MAC.ilp -> MAC.solution) (solve1 : AC.ilp1 -> AC.solution1)
    (data : list row) (ps : list (string * MAC.profile_entry))
    (ideal : list (string * Q)) (w : gmap string Q) (mr : Z) (d out out1 : list row) :
  MAC.calculate_all_distances py_float data ps = Ok d ->
  MAC.cluster_artists solve d ps = Ok out ->
  AC.cluster_artists solve1 (AC.calculate_all_distances py_float data ideal w) mr = Ok out1 ->
  length d = length data /\ length out = length data /\ length out1 = length data /\
  forall i, (i < length data)%nat ->
    (forall k, ~ In k (map dist_key (map fst ps)) -> nth i d ∅ !! k = nth i data ∅ !! k) /\
    (forall nm, In nm (map fst ps) -> exists q, nth i d ∅ !! dist_key nm = Some (VNum q)) /\
    (forall k, k <> "Cluster"%string -> nth i out ∅ !! k = nth i d ∅ !! k) /\
    (forall k, k <> "Distance_to_Ideal"%string ->
       nth i (AC.calculate_all_distances py_float data ideal w) ∅ !! k = nth i data ∅ !! k) /\
    (exists q, nth i (AC.calculate_all_distances py_float data ideal w) ∅ !! "Distance_to_Ideal"
               = Some (VNum q)) /\
    (forall k, k <> "Cluster"%string ->
       nth i out1 ∅ !! k = nth i (AC.calculate_all_distances py_float data ideal w) ∅ !! k) /\
    (exists nm, nth i out1 ∅ !! "Cluster" = Some (VStr nm)).
Proof.
  intros Hd Hout Hout1.
  unfold MAC.calculate_all_distances, MAC.normalize_distances in Hd.
  destruct (normalize_names_frame _ _ _ Hd) as [Hld Hfd]. rewrite length_map in Hld.
  unfold MAC.cluster_artists in Hout.
  destruct (MAC.build_model d ps) as [m|e]; cbn [bind] in Hout; [|discriminate].
  destruct (assign_clusters_frame _ _ _ _ _ Hout) as [Hlo Hfo].
  unfold AC.cluster_artists in Hout1.
  destruct (AC.costs1 _) as [c|e]; cbn [bind] in Hout1; [|discriminate].
  destruct (label_rows1_frame _ _ _ _ Hout1) as [Hlo1 Hfo1].
  unfold AC.calculate_all_distances in Hlo1, Hfo1 |- *. rewrite length_map in Hlo1.
  split; [exact Hld|]. split; [lia|]. split; [exact Hlo1|].
  intros i Hi.
  destruct (Hfd i ltac:(rewrite length_map; lia)) as [Hk [_ Ha]].
  rewrite nth_map_row in Hk by exact Hi.
  destruct (Hfo1 i ltac:(rewrite length_map; lia)) as [Hk1 Hc1].
  split; [|split; [|split; [|split; [|split; [|split]]]]].
  - intros k Hnk. rewrite Hk by exact Hnk. by apply add_distances_frame.
  - exact Ha.
  - intros k Hnk. apply Hfo; [lia | exact Hnk].
  - intros k Hnk. rewrite nth_map_row by exact Hi. by rewrite lookup_insert_ne by congruence.
  - rewrite nth_map_row by exact Hi. eexists. apply lookup_insert_eq.
  - exact Hk1.
  - exact Hc1.
Qed.

Lemma pipeline_frame_witness :
  let d := ok_or (MAC.calculate_all_distances parse_decimal [songs_row] MAC.profiles) [] in
  let out := ok_or (MAC.cluster_artists (fun _ => MAC.Solved x_diag) d MAC.profiles) [] in
  let ac := AC.calculate_all_distances parse_decimal [songs_row] AC.ideal_artist AC.weights in
  let out1 := ok_or (AC.cluster_artists (fun _ => AC.Solved1 (fun _ => 1)) ac 1) [] in
  length out = 1%nat /\
  nth 0 out1 ∅ !! "Number of Songs (Spotify)" = nth 0 [songs_row] ∅ !! "Number of Songs (Spotify)".
Proof.
  intros d out ac out1.
  destruct (pipeline_frame parse_decimal (fun _ => MAC.Solved x_diag) (fun _ => AC.Solved1 (fun _ => 1))
              [songs_row] MAC.profiles AC.ideal_artist AC.weights 1 d out out1)
    as [_ [Hl [_ Hf]]]; [apply result_ok; vm_compute; reflexivity ..|].
  split; [exact Hl|].
  destruct (Hf 0%nat ltac:(cbn; lia)) as [_ [_ [_ [Hk [_ [Hk1 _]]]]]].
  rewrite Hk1 by discriminate. apply Hk. discriminate.
Defined.

(** ** A second normalisation of a column with a positive maximum *)

Lemma Qlt_bool_scale (x y c : Q) : 0 < c -> Qlt_bool (x / c) (y / c) = Qlt_bool x y.
Proof.
  intros Hc. unfold Qlt_bool, Qdiv. f_equal.
  assert (Hi : 0 < / c) by (apply Qinv_lt_0_compat; exact Hc).
  destruct (Qle_bool (y * / c) (x * / c)) eqn:E1, (Qle_bool y x) eqn:E2; try reflexivity.
  - apply Qle_bool_iff in E1. apply Qmult_le_r in E1; [|exact Hi].
    apply Qle_bool_iff in E1. congruence.
  - apply Qle_bool_iff in E2. apply (Qmult_le_r _ _ (/ c)) in E2; [|exact Hi].
    apply Qle_bool_iff in E2. congruence.
Qed.

Lemma py_max_scale (x : Q) (l : list Q) (c : Q) :
  0 < c -> py_max (x / c) (map (fun q => q / c) l) == py_max x l / c.
Proof.
  intros Hc. revert x; induction l as [|y l IH]; intros x; cbn [py_max map]; [reflexivity|].
  rewrite Qlt_bool_scale by exact Hc. destruct (Qlt_bool x y); apply IH.
Qed.

Lemma column_zip_insert (data : list row) (k : string) (qs : list Q) (m : Q) :
  length data = length qs ->
  MAC.column (zip_with (fun r q => <[k := VNum (q / m)]> r) data qs) k
  = Ok (map (fun q => VNum (q / m)) qs).
Proof.
  revert qs; induction data as [|r rs IH]; intros [|q qs] Hl; cbn [length] in Hl;
    try lia; [reflexivity|].
  cbn [zip_with MAC.column map]. rewrite lookup_insert_eq.
  rewrite IH by lia. reflexivity.
Qed.

Lemma floats_num (f : Q -> Q) (qs : list Q) :
  MAC.floats (map (fun q => VNum (f q)) qs) = Ok (map f qs).
Proof. induction qs as [|q qs IH]; cbn [map MAC.floats]; [reflexivity|]. by rewrite IH. Qed.

(** When the first pass divides a column by a positive maximum [m], the
    second pass divides it by [max(d / m) == 1] and leaves every value
    unchanged (up to the value of the float). *)
Lemma normalize_column_twice (data d1 : list row) (nm : string) (vs : list value)
    (d : Q) (ds : list Q) :
  MAC.column data (dist_key nm) = Ok vs -> MAC.floats vs = Ok (d :: ds) ->
  0 < py_max d ds -> MAC.normalize_column data nm = Ok d1 ->
  exists d2, MAC.normalize_column d1 nm = Ok d2 /\ length d2 = length d1 /\
    forall i, (i < length d1)%nat -> forall q1 q2,
      nth i d1 ∅ !! dist_key nm = Some (VNum q1) ->
      nth i d2 ∅ !! dist_key nm = Some (VNum q2) -> q1 == q2.
Proof.
  intros Hc Hf Hm Hn. set (m := py_max d ds) in *.
  pose proof (column_length _ _ _ Hc) as Hl1. pose proof (floats_length _ _ Hf) as Hl2.
  unfold MAC.normalize_column in Hn. rewrite Hc in Hn. cbn [bind] in Hn. rewrite Hf in Hn.
  cbn [bind] in Hn. fold m in Hn.
  assert (Hm0 : Qeq_bool m 0 = false).
  { apply not_true_iff_false. intros E. apply Qeq_bool_iff in E. lra. }
  rewrite Hm0 in Hn. injection Hn as <-.
  assert (Hl : length data = length (d :: ds)) by lia.
  assert (Hmax : py_max (d / m) (map (fun q => q / m) ds) == 1).
  { rewrite py_max_scale by exact Hm. fold m. field. lra. }
  assert (Hm1 : Qeq_bool (py_max (d / m) (map (fun q => q / m) ds)) 0 = false).
  { apply not_true_iff_false. intros E. apply Qeq_bool_iff in E. lra. }
  unfold MAC.normalize_column.
  rewrite (column_zip_insert data (dist_key nm) (d :: ds) m Hl). cbn [bind].
  rewrite floats_num. cbn [bind map]. rewrite Hm1.
  set (m' := py_max (d / m) (map (fun q => q / m) ds)) in *.
  eexists. split; [reflexivity|].
  assert (Hld1 : length (zip_with (fun r q => <[dist_key nm := VNum (q / m)]> r) data (d :: ds))
                 = length data) by (apply length_zip_with_eq; exact Hl).
  split; [rewrite length_zip_with_eq; [reflexivity|]; cbn [length map] in *; rewrite length_map; lia|].
  intros i Hi q1 q2 H1 H2.
  rewrite (nth_zip_with _ _ _ i ∅ 0%Q) in H1 by lia.
  rewrite lookup_insert_eq in H1. injection H1 as <-.
  rewrite (nth_zip_with _ _ _ i ∅ (0 / m)) in H2;
    [|cbn [length map] in *; rewrite length_map; lia | lia].
  rewrite lookup_insert_eq in H2. injection H2 as <-.
  destruct i as [|i]; [|rewrite (map_nth (fun q => q / m) ds 0 i)]; rewrite Hmax; field; lra.
Qed.

(** C8: normalisation is not idempotent. After [calculate_all_distances]
    the 'Low' column of [low_rows] is [[-8/-2, -2/-2] = [4, 1]]; a second
    [normalize_distances] divides it by its new maximum 4. *)
Theorem normalize_distances_not_idempotent :
  exists (py_float : string -> option Q) (rows : list row)
         (ps : list (string * MAC.profile_entry)) (d1 d2 : list row) (i : nat) (nm : string)
         (q1 q2 : Q),
    MAC.calculate_all_distances py_float rows ps = Ok d1 /\
    MAC.normalize_distances d1 ps = Ok d2 /\
    nth i d1 ∅ !! dist_key nm = Some (VNum q1) /\
    nth i d2 ∅ !! dist_key nm = Some (VNum q2) /\ ~ (q1 == q2).
Proof.
  set (d1 := ok_or (MAC.calculate_all_distances parse_decimal low_rows low_profiles) []).
  set (d2 := ok_or (MAC.normalize_distances d1 low_profiles) []).
  set (q1 := match nth 1 d1 ∅ !! dist_key "Low" with Some (VNum q) => q | _ => 0 end).
  set (q2 := match nth 1 d2 ∅ !! dist_key "Low" with Some (VNum q) => q | _ => 0 end).
  exists parse_decimal, low_rows, low_profiles, d1, d2, 1%nat, "Low"%string, q1, q2.
  split; [apply result_ok; vm_compute; reflexivity|].
  split; [apply result_ok; vm_compute; reflexivity|].
  split; [subst q1 d1; vm_compute; reflexivity|].
  split; [subst q2 d2 d1; vm_compute; reflexivity|].
  subst q1 q2 d2 d1. vm_compute. discriminate.
Qed.

(* ------------------------------------------------------------------ *)
(** ** [load_data] *)

Section LoadFacts.
Variable py_float : string -> option Q.

Lemma dict_set_in {V : Type} (d : list (string * V)) (k : string) (v : V) :
  In (k, v) (Load.dict_set d k v).
Proof.
  induction d as [|[k' v'] d IH]; cbn [Load.dict_set]; [by left|].
  destruct (String.eqb k k'); [by left | by right].
Qed.

Lemma dict_set_fresh {V : Type} (d : list (string * V)) (k : string) (v : V) :
  ~ In k (map fst d) -> Load.dict_set d k v = d ++ [(k, v)].
Proof.
  induction d as [|[k' v'] d IH]; intros Hk; [reflexivity|].
  cbn [map fst In] in Hk. cbn [Load.dict_set].
  destruct (String.eqb_spec k k') as [->|Hne]; [tauto|].
  rewrite IH by tauto. reflexivity.
Qed.

(** Every value set by [dict_set] satisfies [P] if the old ones did. *)
Lemma dict_set_forall {V : Type} (P : V -> Prop) (d : list (string * V)) (k : string) (v : V) :
  Forall (fun e => P e.2) d -> P v -> Forall (fun e => P e.2) (Load.dict_set d k v).
Proof.
  induction d as [|[k' v'] d IH]; intros Hd Hv; cbn [Load.dict_set]; [by constructor|].
  inversion Hd as [|? ? Hkv Hd']; subst.
  destruct (String.eqb k k'); constructor; auto.
Qed.

Lemma fold_dict_set_forall (P : Load.cell -> Prop) (f : string -> Load.cell)
    (l : list (string * string)) (d : list (string * Load.cell)) :
  Forall (fun e => P e.2) d -> (forall s, P (f s)) ->
  Forall (fun e => P e.2) (fold_left (fun d kv => Load.dict_set d kv.1 (f kv.2)) l d).
Proof.
  revert d; induction l as [|kv l IH]; intros d Hd Hf; cbn [fold_left]; [exact Hd|].
  apply IH; [apply dict_set_forall|]; auto.
Qed.

Lemma fold_dict_set_none (ks : list string) (d : list (string * Load.cell)) :
  (exists k, In (k, Load.CNone) d) \/ ks <> [] ->
  exists k, In (k, Load.CNone) (fold_left (fun d k => Load.dict_set d k Load.CNone) ks d).
Proof.
  revert d; induction ks as [|k ks IH]; intros d H; cbn [fold_left].
  - destruct H as [H|H]; [exact H | done].
  - apply IH. left. exists k. apply dict_set_in.
Qed.

Lemma convert_entries_err (d : list (string * Load.cell)) (e : py_error) :
  Load.convert_entries py_float d = Err e -> e = AttributeError.
Proof.
  induction d as [|[k [v| |l]] d IH]; cbn [Load.convert_entries]; try congruence.
  destruct (Load.convert_entries py_float d); cbn [bind]; [discriminate|].
  intros H; injection H as <-. by apply IH.
Qed.

Lemma convert_entries_none (d : list (string * Load.cell)) (k : string) :
  In (k, Load.CNone) d -> Load.convert_entries py_float d = Err AttributeError.
Proof.
  induction d as [|[k' [v| |l]] d IH]; intros Hin; cbn [Load.convert_entries]; [done| |done|done].
  destruct Hin as [Heq|Hin]; [discriminate|]. by rewrite IH.
Qed.

Lemma convert_entries_cstr (d : list (string * Load.cell)) :
  Forall (fun e => exists s, e.2 = Load.CStr s) d ->
  exists kvs, Load.convert_entries py_float d = Ok kvs /\ map fst kvs = map fst d /\
    forall k v, In (k, v) kvs -> exists s, In (k, Load.CStr s) d /\ v = Load.convert_field py_float s.
Proof.
  induction d as [|[k c] d IH]; intros Hd.
  - exists []. split; [reflexivity|]. split; [reflexivity|]. done.
  - inversion Hd as [|? ? [s Hs] Hd']; subst. cbn [snd] in Hs; subst c.
    destruct (IH Hd') as [kvs [Hc [Hf Hin]]].
    exists ((k, Load.convert_field py_float s) :: kvs). cbn [Load.convert_entries].
    rewrite Hc. split; [reflexivity|]. split; [cbn [map fst]; by rewrite Hf|].
    intros k' v [Heq|Hi].
    + injection Heq as <- <-. exists s. split; [by left | reflexivity].
    + destruct (Hin k' v Hi) as [s' [Hs' ->]]. exists s'. split; [by right | reflexivity].
Qed.

Lemma dict_reader_cstr (fieldnames rec : list string) :
  Forall (fun e => exists s, e.2 = Load.CStr s)
    (fold_left (fun d kv => Load.dict_set d kv.1 (Load.CStr kv.2)) (zip fieldnames rec) []).
Proof.
  apply (fold_dict_set_forall (fun c => exists s, c = Load.CStr s)); [constructor|].
  intros s. by exists s.
Qed.

(** One record: a row when it has as many fields as the header, otherwise
    [AttributeError]. *)
Lemma load_row_outcome (fieldnames rec : list string) :
  (length rec = length fieldnames -> exists r, Load.load_row py_float fieldnames rec = Ok r) /\
  (length rec <> length fieldnames ->
     Load.load_row py_float fieldnames rec = Err AttributeError).
Proof.
  unfold Load.load_row, Load.dict_reader_row.
  set (d := fold_left (fun d kv => Load.dict_set d kv.1 (Load.CStr kv.2)) (zip fieldnames rec) []).
  pose proof (dict_reader_cstr fieldnames rec) as Hd. fold d in Hd.
  destruct (convert_entries_cstr d Hd) as [kvs [Hc _]].
  split; intros Hl.
  - rewrite Hl, Nat.ltb_irrefl. cbn. rewrite Hc. cbn [bind]. eexists; reflexivity.
  - destruct (Nat.ltb_spec (length fieldnames) (length rec)) as [Hlt|Hge].
    + rewrite Hc. reflexivity.
    + destruct (Nat.ltb_spec (length rec) (length fieldnames)) as [Hlt|]; [|lia].
      destruct (fold_dict_set_none (drop (length rec) fieldnames) d) as [k Hk].
      { right. intros Hnil. apply (f_equal length) in Hnil.
        rewrite length_drop in Hnil. cbn [length] in Hnil. lia. }
      cbn. rewrite (convert_entries_none _ _ Hk). reflexivity.
Qed.

Lemma load_rows_outcome (fieldnames : list string) (recs : list (list string)) :
  (Forall (fun rec => rec = [] \/ length rec = length fieldnames) recs ->
     exists rows, Load.load_rows py_float fieldnames recs = Ok rows /\
       length rows = length (Load.data_records recs)) /\
  (~ Forall (fun rec => rec = [] \/ length rec = length fieldnames) recs ->
     Load.load_rows py_float fieldnames recs = Err AttributeError).
Proof.
  induction recs as [|rec recs IH]; split.
  - intros _. exists []. split; reflexivity.
  - intros H. exfalso. apply H. constructor.
  - intros Hf. inversion Hf as [|? ? Hrec Hf']; subst.
    destruct (proj1 IH Hf') as [rows [Hr Hl]].
    destruct rec as [|c cs].
    + exists rows. split; [exact Hr | exact Hl].
    + destruct Hrec as [Hrec|Hrec]; [discriminate|].
      destruct (proj1 (load_row_outcome fieldnames (c :: cs)) Hrec) as [r Hlr].
      exists (r :: rows). cbn [Load.load_rows]. rewrite Hlr. cbn [bind]. rewrite Hr.
      split; [reflexivity|]. cbn. by rewrite Hl.
  - intros Hn. destruct rec as [|c cs].
    + cbn [Load.load_rows]. apply IH. intros Hf. apply Hn. constructor; [by left | exact Hf].
    + cbn [Load.load_rows].
      destruct (decide (length (c :: cs) = length fieldnames)) as [Heq|Hne].
      * destruct (proj1 (load_row_outcome fieldnames (c :: cs)) Heq) as [r Hlr].
        rewrite Hlr. cbn [bind]. rewrite (proj2 IH); [reflexivity|].
        intros Hf. apply Hn. constructor; [by right | exact Hf].
      * by rewrite (proj2 (load_row_outcome fieldnames (c :: cs)) Hne).
Qed.

Lemma fold_dict_set_fresh (l : list (string * string)) (d : list (string * Load.cell)) :
  NoDup (map fst d ++ map fst l) ->
  fold_left (fun d kv => Load.dict_set d kv.1 (Load.CStr kv.2)) l d
  = d ++ map (fun kv => (kv.1, Load.CStr kv.2)) l.
Proof.
  revert d; induction l as [|[k v] l IH]; intros d Hnd; cbn [fold_left map]; [by rewrite app_nil_r|].
  cbn [map fst] in Hnd.
  rewrite dict_set_fresh.
  - cbn [fst snd]. rewrite IH; [by rewrite <- app_assoc|].
    rewrite map_app. cbn [map fst]. rewrite <- app_assoc. exact Hnd.
  - intros Hin. apply NoDup_app in Hnd as [_ [Hdis _]].
    apply (Hdis k); [by apply list_elem_of_In | by left].
Qed.

Lemma map_fst_zip {A B : Type} (l1 : list A) (l2 : list B) :
  length l1 = length l2 -> map fst (zip l1 l2) = l1.
Proof.
  revert l2; induction l1 as [|a l1 IH]; intros [|b l2] Hl; cbn [length] in Hl; try lia;
    [reflexivity|]. cbn [zip zip_with map fst]. f_equal. apply IH. lia.
Qed.

Lemma nth_zip {A B : Type} (l1 : list A) (l2 : list B) (j : nat) (a : A) (b : B) :
  length l1 = length l2 -> nth j (zip l1 l2) (a, b) = (nth j l1 a, nth j l2 b).
Proof.
  revert l2 j; induction l1 as [|x l1 IH]; intros [|y l2] j Hl; cbn [length] in Hl; try lia.
  - by destruct j.
  - destruct j as [|j]; [reflexivity|]. cbn [zip zip_with nth]. apply IH. lia.
Qed.

(** A record with distinct header names and as many fields: its row maps
    header [j] to the converted field [j], and has no other key. *)
Lemma load_row_fields (fieldnames rec : list string) (r : row) :
  NoDup fieldnames -> Load.load_row py_float fieldnames rec = Ok r ->
  length rec = length fieldnames /\
  (forall j, (j < length fieldnames)%nat ->
     r !! nth j fieldnames ""%string = Some (Load.convert_field py_float (nth j rec ""%string))) /\
  (forall k, ~ In k fieldnames -> r !! k = None).
Proof.
  intros Hnd Hr.
  destruct (decide (length rec = length fieldnames)) as [Hl|Hl];
    [|by rewrite (proj2 (load_row_outcome fieldnames rec) Hl) in Hr].
  split; [exact Hl|].
  unfold Load.load_row, Load.dict_reader_row in Hr.
  rewrite Hl, Nat.ltb_irrefl in Hr.
  rewrite fold_dict_set_fresh in Hr by (cbn [map app]; rewrite map_fst_zip by lia; exact Hnd).
  cbn [app] in Hr.
  set (kvs := map (fun kv => (kv.1, Load.convert_field py_float kv.2)) (zip fieldnames rec)).
  assert (Hc : Load.convert_entries py_float (map (fun kv => (kv.1, Load.CStr kv.2)) (zip fieldnames rec))
               = Ok kvs).
  { unfold kvs. clear. induction (zip fieldnames rec) as [|[k v] z IH]; [reflexivity|].
    cbn [map Load.convert_entries fst snd]. rewrite IH. reflexivity. }
  rewrite Hc in Hr. cbn [bind] in Hr. injection Hr as <-.
  assert (Hf : kvs.*1 = fieldnames).
  { unfold kvs. change (fmap fst ?l) with (map fst l). rewrite map_map. cbn [fst].
    apply map_fst_zip. lia. }
  split.
  - intros j Hj. apply elem_of_list_to_map_1; [by rewrite Hf|].
    apply list_elem_of_In. unfold kvs.
    replace (nth j fieldnames ""%string, Load.convert_field py_float (nth j rec ""%string))
      with ((fun kv : string * string => (kv.1, Load.convert_field py_float kv.2))
              (nth j (zip fieldnames rec) (""%string, ""%string)))
      by (rewrite nth_zip by lia; reflexivity).
    apply (in_map (fun kv : string * string => (kv.1, Load.convert_field py_float kv.2))).
    apply nth_In. rewrite length_zip_with. lia.
  - intros k Hk. apply not_elem_of_list_to_map_1. rewrite Hf. by rewrite list_elem_of_In.
Qed.

Lemma load_rows_forall2 (fieldnames : list string) (recs : list (list string)) (rows : list row) :
  Load.load_rows py_float fieldnames recs = Ok rows ->
  Forall2 (fun rec r => Load.load_row py_float fieldnames rec = Ok r) (Load.data_records recs) rows.
Proof.
  revert rows; induction recs as [|rec recs IH]; intros rows H; cbn [Load.load_rows] in H.
  - injection H as <-. constructor.
  - destruct rec as [|c cs]; [by apply IH|].
    destruct (Load.load_row py_float fieldnames (c :: cs)) as [r|e] eqn:Hr; cbn [bind] in H;
      [|discriminate].
    destruct (Load.load_rows py_float fieldnames recs) as [rs|e] eqn:Hrs; cbn [bind] in H;
      [|discriminate].
    injection H as <-. cbn [Load.data_records List.filter]. constructor; [exact Hr|].
    by apply IH.
Qed.

Lemma Forall2_nth' {A B : Type} (P : A -> B -> Prop) (l1 : list A) (l2 : list B)
    (i : nat) (a : A) (b : B) :
  Forall2 P l1 l2 -> (i < length l2)%nat -> P (nth i l1 a) (nth i l2 b).
Proof.
  intros H. revert i; induction H as [|x y l1 l2 Hxy H IH]; intros i Hi;
    cbn [length] in Hi; [lia|].
  destruct i as [|i]; [exact Hxy|]. apply IH. lia.
Qed.

End LoadFacts.

(** X1: [load_data] returns one row per non-empty data record exactly when
    every non-empty data record has as many fields as the header; a record
    with a missing field (set to [None] by [DictReader]) or a surplus field
    makes it raise [AttributeError]. An empty file gives no row. *)
Theorem load_data_outcome (py_float : string -> option Q) (header : list string)
    (recs : list (list string)) :
  Load.load_data py_float [] = Ok [] /\
  (Forall (fun rec => rec = [] \/ length rec = length header) recs ->
     exists rows, Load.load_data py_float (header :: recs) = Ok rows /\
       length rows = length (Load.data_records recs)) /\
  (~ Forall (fun rec => rec = [] \/ length rec = length header) recs ->
     Load.load_data py_float (header :: recs) = Err AttributeError).
Proof.
  split; [reflexivity|]. apply load_rows_outcome.
Qed.

(** X2: with distinct header names, [load_data] turns the [i]-th non-empty
    data record into the [i]-th row, whose value for header [j] is field
    [j] converted by [float(v) if v.replace('.', '', 1).isdigit() else v],
    and which has no key outside the header. *)
Theorem load_data_fields (py_float : string -> option Q) (header : list string)
    (recs : list (list string)) (rows : list row) :
  NoDup header -> Load.load_data py_float (header :: recs) = Ok rows ->
  length rows = length (Load.data_records recs) /\
  forall i, (i < length rows)%nat ->
    (forall j, (j < length header)%nat ->
       nth i rows ∅ !! nth j header ""%string
       = Some (Load.convert_field py_float (nth j (nth i (Load.data_records recs) []) ""%string))) /\
    (forall k, ~ In k header -> nth i rows ∅ !! k = None).
Proof.
  intros Hnd H. cbn [Load.load_data] in H.
  pose proof (load_rows_forall2 py_float _ _ _ H) as Hf.
  split; [symmetry; exact (Forall2_length _ _ _ Hf)|].
  intros i Hi.
  pose proof (Forall2_nth' _ _ _ i [] ∅ Hf Hi) as Hr.
  destruct (load_row_fields py_float _ _ _ Hnd Hr) as [_ [Hj Hk]].
  split; [exact Hj | exact Hk].
Qed.

Lemma load_data_fields_witness :
  nth 1 (ok_or (Load.load_data parse_decimal
                  [["Artist Name"; "Number of Songs (Spotify)"]; ["A"; "3"]; []; ["B"; "N/A"]]) [])
      ∅ !! "Number of Songs (Spotify)" = Some (VStr "N/A").
Proof.
  destruct (load_data_fields parse_decimal ["Artist Name"; "Number of Songs (Spotify)"]
              [["A"; "3"]; []; ["B"; "N/A"]]
              (ok_or (Load.load_data parse_decimal
                  [["Artist Name"; "Number of Songs (Spotify)"]; ["A"; "3"]; []; ["B"; "N/A"]]) []))
    as [_ Hf].
  - apply (bool_decide_unpack _). vm_compute. exact I.
  - apply result_ok. vm_compute. reflexivity.
  - destruct (Hf 1%nat ltac:(vm_compute; lia)) as [Hj _].
    exact (Hj 1%nat ltac:(cbn; lia)).
Defined.

Lemma is_digit_not_dot (c : ascii) : Load.is_ascii_digit c = true -> Ascii.eqb c "."%char = false.
Proof.
  intros H. destruct (Ascii.eqb_spec c "."%char) as [->|]; [discriminate | reflexivity].
Qed.

(** [parse_digits] reads ASCII digits with at most one dot. *)
Lemma parse_digits_digits (s : string) (acc : Z) (scale : positive) (dot : bool) :
  (0 <= acc)%Z ->
  (if dot then Load.all_ascii_digits s
   else Load.all_ascii_digits (Load.replace_first_dot s)) = true ->
  exists n d, parse_digits s acc scale dot = Some (n, d) /\ (0 <= n)%Z.
Proof.
  revert acc scale dot; induction s as [|c s IH]; intros acc scale dot Hacc Hs.
  - exists acc, scale. split; [reflexivity | exact Hacc].
  - cbn [parse_digits].
    destruct dot.
    + cbn [Load.all_ascii_digits] in Hs. apply andb_true_iff in Hs as [Hc Hs].
      rewrite (is_digit_not_dot c Hc). unfold Load.is_ascii_digit in Hc. cbn zeta in Hc.
      rewrite Hc. apply IH; [lia | exact Hs].
    + cbn [Load.replace_first_dot] in Hs.
      destruct (Ascii.eqb c "."%char) eqn:Hdot.
      * apply IH; [exact Hacc | exact Hs].
      * cbn [Load.all_ascii_digits] in Hs. apply andb_true_iff in Hs as [Hc Hs].
        unfold Load.is_ascii_digit in Hc. cbn zeta in Hc. rewrite Hc. apply IH; [lia | exact Hs].
Qed.

(** Conversely, [parse_digits] fails on a string with any character
    other than '0'..'9' and its first dot. *)
Lemma parse_digits_some_ascii (s : string) (acc : Z) (scale : positive) (dot : bool)
    (nd : Z * positive) :
  parse_digits s acc scale dot = Some nd ->
  (if dot then Load.all_ascii_digits s
   else Load.all_ascii_digits (Load.replace_first_dot s)) = true.
Proof.
  revert acc scale dot; induction s as [|c s IH]; intros acc scale dot Hp.
  - by destruct dot.
  - cbn [parse_digits] in Hp.
    destruct (Ascii.eqb c "."%char) eqn:Hdot.
    + destruct dot; [discriminate|].
      cbn [Load.replace_first_dot]. rewrite Hdot.
      exact (IH _ _ true Hp).
    + destruct ((48 <=? Ascii.nat_of_ascii c)%nat && (Ascii.nat_of_ascii c <=? 57)%nat)
        eqn:Hc; [|discriminate].
      apply IH in Hp.
      destruct dot; cbn [Load.replace_first_dot Load.all_ascii_digits];
        [|rewrite Hdot; cbn [Load.all_ascii_digits]];
        unfold Load.is_ascii_digit; cbn zeta; rewrite Hc; exact Hp.
Qed.

Lemma parse_decimal_unsigned (c : ascii) (s : string) :
  c <> "-"%char ->
  parse_decimal (String c s) =
  match parse_digits (String c s) 0 1 false with
  | Some (n, d) => Some (Qmake (1 * n) d)
  | None => None
  end.
Proof.
  intros Hc. unfold parse_decimal.
  destruct c as [[] [] [] [] [] [] [] []]; try reflexivity. exfalso. by apply Hc.
Qed.

Lemma isdigit_not_minus (c : ascii) (v : string) :
  Load.isdigit (Load.replace_first_dot (String c v)) = true -> c <> "-"%char.
Proof. intros Hd ->. discriminate. Qed.

Lemma convert_field_decimal (v : string) :
  (Load.isdigit (Load.replace_first_dot v) = true ->
   Load.all_ascii_digits (Load.replace_first_dot v) = true ->
     exists q, parse_decimal v = Some q /\ 0 <= q /\
       Load.convert_field parse_decimal v = VNum q) /\
  (Load.isdigit (Load.replace_first_dot v) = true ->
   Load.all_ascii_digits (Load.replace_first_dot v) = false ->
     parse_decimal v = None /\ Load.convert_field parse_decimal v = VNum 0) /\
  (Load.isdigit (Load.replace_first_dot v) = false ->
     Load.convert_field parse_decimal v = VStr v).
Proof.
  split; [|split]; intros Hd; unfold Load.convert_field; rewrite Hd; [| |reflexivity].
  - intros Hall.
    destruct v as [|c v]; [discriminate|].
    rewrite parse_decimal_unsigned by exact (isdigit_not_minus c v Hd).
    destruct (parse_digits_digits (String c v) 0 1 false ltac:(lia) Hall) as [n [d [Hp Hn]]].
    rewrite Hp. exists (Qmake (1 * n) d). split; [reflexivity|]. split; [|reflexivity].
    unfold Qle. cbn [Qnum Qden]. lia.
  - intros Hall.
    destruct v as [|c v]; [discriminate|].
    rewrite parse_decimal_unsigned by exact (isdigit_not_minus c v Hd).
    destruct (parse_digits (String c v) 0 1 false) as [[n d]|] eqn:Hp.
    + apply parse_digits_some_ascii in Hp. congruence.
    + split; reflexivity.
Qed.

(** X3: in [load_data], [float(v)] is called on a field that, with its
    first '.' deleted, passes [str.isdigit]. If that string is made of
    ASCII digits, the field parses to a non-negative number, which is
    stored; if it holds a superscript digit such as U+00B2 (for which
    [isdigit] is true too), [float] raises and the [except ValueError]
    branch stores 0. Every other field is stored unchanged as a string
    (e.g. '-5', '1e3', '' or ' 7'). *)
Theorem load_field_conversion (v : string) :
  (Load.isdigit (Load.replace_first_dot v) = true ->
   Load.all_ascii_digits (Load.replace_first_dot v) = true ->
     exists q, parse_decimal v = Some q /\ 0 <= q /\
       Load.convert_field parse_decimal v = VNum q) /\
  (Load.isdigit (Load.replace_first_dot v) = true ->
   Load.all_ascii_digits (Load.replace_first_dot v) = false ->
     parse_decimal v = None /\ Load.convert_field parse_decimal v = VNum 0) /\
  (Load.isdigit (Load.replace_first_dot v) = false ->
     Load.convert_field parse_decimal v = VStr v).
Proof. apply convert_field_decimal. Qed.

Lemma convert_entries_values (py_float : string -> option Q) (d : list (string * Load.cell))
    (kvs : list (string * value)) (k : string) (v : value) :
  Load.convert_entries py_float d = Ok kvs -> In (k, v) kvs ->
  exists s, v = Load.convert_field py_float s.
Proof.
  revert kvs; induction d as [|[k' [s| |l]] d IH]; intros kvs Hc Hin;
    cbn [Load.convert_entries] in Hc; try discriminate.
  - injection Hc as <-. done.
  - destruct (Load.convert_entries py_float d) as [kvs'|e] eqn:Hd; cbn [bind] in Hc;
      [|discriminate].
    injection Hc as <-. destruct Hin as [Heq|Hin].
    + injection Heq as -> <-. by exists s.
    + by apply (IH kvs').
Qed.

Lemma load_rows_values (py_float : string -> option Q) (fieldnames : list string)
    (recs : list (list string)) (rows : list row) :
  Load.load_rows py_float fieldnames recs = Ok rows ->
  forall r, In r rows -> forall k v, r !! k = Some v -> exists s, v = Load.convert_field py_float s.
Proof.
  intros H. apply load_rows_forall2 in H.
  induction H as [|rec r recs' rows' Hr H IH]; intros r' Hin k v Hk; [done|].
  destruct Hin as [<-|Hin]; [|by apply (IH r' Hin k)].
  unfold Load.load_row in Hr. destruct (Load.dict_reader_row fieldnames rec) as [d extra].
  destruct (Load.convert_entries py_float d) as [kvs|e] eqn:Hc; cbn [bind] in Hr; [|discriminate].
  destruct extra; [discriminate|]. injection Hr as <-.
  apply elem_of_list_to_map_2, list_elem_of_In in Hk.
  exact (convert_entries_values py_float d kvs k v Hc Hk).
Qed.

(** X4: every number [load_data] stores is non-negative: a field such as
    '-5' does not pass the [isdigit] test and stays a string. *)
Theorem load_data_nonneg (recs : list (list string)) (rows : list row) :
  Load.load_data parse_decimal recs = Ok rows ->
  forall r, In r rows -> forall k q, r !! k = Some (VNum q) -> 0 <= q.
Proof.
  destruct recs as [|header recs]; cbn [Load.load_data].
  - intros H. injection H as <-. done.
  - intros H r Hin k q Hk.
    destruct (load_rows_values parse_decimal header recs rows H r Hin k _ Hk) as [s Hs].
    destruct (Load.isdigit (Load.replace_first_dot s)) eqn:Hd.
    + destruct (convert_field_decimal s) as [Ha [Hb _]].
      destruct (Load.all_ascii_digits (Load.replace_first_dot s)) eqn:Hall.
      * destruct (Ha Hd eq_refl) as [q' [_ [Hq' Hc]]].
        rewrite Hc in Hs. injection Hs as ->. exact Hq'.
      * rewrite (proj2 (Hb Hd eq_refl)) in Hs. injection Hs as <-. apply Qle_refl.
    + rewrite (proj2 (proj2 (convert_field_decimal s)) Hd) in Hs. discriminate.
Qed.

Lemma load_data_nonneg_witness :
  Load.load_data parse_decimal [["Songs"]; ["3.5"]; ["-5"]]
    = Ok [{[ "Songs" := VNum (35 # 10) ]}; {[ "Songs" := VStr "-5" ]}] /\ 0 <= 35 # 10.
Proof.
  assert (H : Load.load_data parse_decimal [["Songs"]; ["3.5"]; ["-5"]]
              = Ok [{[ "Songs" := VNum (35 # 10) ]}; {[ "Songs" := VStr "-5" ]}])
    by (vm_compute; reflexivity).
  split; [exact H|].
  apply (load_data_nonneg _ _ H {[ "Songs" := VNum (35 # 10) ]} ltac:(by left) "Songs").
  apply lookup_insert_eq.
Defined.

(* ------------------------------------------------------------------ *)
(** ** The single-profile integer program *)

Lemma feasible1_spec (m : AC.ilp1) (x : nat -> Q) :
  ACILP.feasible1 m x <->
  (forall i, (i < AC.n1 m)%nat -> x i == 0 \/ x i == 1) /\
  inject_Z (AC.min_ready m) <= MAC.qsum (AC.n1 m) x.
Proof.
  unfold ACILP.feasible1, ACILP.feasible1b. rewrite andb_true_iff, forall_lt_spec, Qle_bool_iff.
  split; intros [Hb Hs]; split; try exact Hs; intros i Hi.
  - specialize (Hb i Hi). apply orb_true_iff in Hb as [H|H]; apply Qeq_bool_iff in H; auto.
  - apply orb_true_iff. destruct (Hb i Hi) as [H|H]; [left|right]; by apply Qeq_bool_iff.
Qed.

Lemma costs1_nth (data : list row) (c : list Q) :
  AC.costs1 data = Ok c ->
  length c = length data /\
  forall i, (i < length data)%nat ->
    nth i data ∅ !! "Distance_to_Ideal" = Some (VNum (nth i c 0)).
Proof.
  revert c; induction data as [|r rs IH]; intros c H; cbn [AC.costs1] in H.
  - injection H as <-. split; [reflexivity|]. intros i Hi; cbn in Hi; lia.
  - destruct (r !! "Distance_to_Ideal") as [[d|s]|] eqn:Hd; try discriminate.
    destruct (AC.costs1 rs) as [cs|e] eqn:Hc; cbn [bind] in H; [|discriminate].
    injection H as <-. destruct (IH _ eq_refl) as [Hl Hn].
    split; [cbn; lia|]. intros [|i] Hi; [exact Hd|]. apply Hn. cbn in Hi. lia.
Qed.

Lemma costs1_distances (py_float : string -> option Q) (data : list row)
    (ideal : list (string * Q)) (w : gmap string Q) :
  exists c, AC.costs1 (AC.calculate_all_distances py_float data ideal w) = Ok c.
Proof.
  induction data as [|r rs [c IH]]; [by exists []|].
  cbn [AC.calculate_all_distances map AC.costs1]. rewrite lookup_insert_eq.
  unfold AC.calculate_all_distances in IH. rewrite IH. cbn [bind]. eexists; reflexivity.
Qed.

Lemma label_rows1_solved (x : nat -> Q) (i0 : nat) (rows : list row) :
  exists out, AC.label_rows1 (AC.Solved1 x) i0 rows = Ok out /\ length out = length rows /\
  forall i, (i < length rows)%nat ->
    nth i out ∅ !! "Cluster"
    = Some (VStr (if Qlt_bool (1#2) (x (i0 + i)%nat) then "Ready" else "Not Ready")).
Proof.
  revert i0; induction rows as [|r rs IH]; intros i0.
  - exists []. split; [reflexivity|]. split; [reflexivity|]. intros i Hi; cbn in Hi; lia.
  - destruct (IH (S i0)) as [out [Ho [Hl Hn]]].
    eexists. cbn [AC.label_rows1]. rewrite Ho. cbn [bind]. split; [reflexivity|].
    split; [cbn; lia|]. intros [|i] Hi; cbn [nth].
    + rewrite lookup_insert_eq. by rewrite Nat.add_0_r.
    + rewrite Hn by (cbn in Hi; lia). by replace (S i0 + i)%nat with (i0 + S i)%nat by lia.
Qed.

Lemma cluster_artists1_model (solve : AC.ilp1 -> AC.solution1) (data : list row) (mr : Z) :
  AC.cluster_artists solve data mr
  = let* m := ACILP.build_model1 data mr in AC.label_rows1 (solve m) 0 data.
Proof.
  unfold AC.cluster_artists, ACILP.build_model1. by destruct (AC.costs1 data).
Qed.

Lemma label_ready (x : nat -> Q) (i : nat) :
  (x i == 0 \/ x i == 1) ->
  (if Qlt_bool (1#2) (x i) then "Ready" else "Not Ready")%string = "Ready"%string -> x i == 1.
Proof.
  intros [H|H] Hl; [|exact H]. rewrite (Qlt_bool_half_zero _ H) in Hl. discriminate.
Qed.

Lemma label_not_ready (x : nat -> Q) (i : nat) :
  (x i == 0 \/ x i == 1) ->
  (if Qlt_bool (1#2) (x i) then "Ready" else "Not Ready")%string = "Not Ready"%string -> x i == 0.
Proof.
  intros [H|H] Hl; [exact H|]. rewrite (Qlt_bool_half_one _ H) in Hl. discriminate.
Qed.

Lemma ac_ready_count (x : nat -> Q) (out : list row) :
  (forall i, (i < length out)%nat ->
     nth i out ∅ !! "Cluster"
     = Some (VStr (if Qlt_bool (1#2) (x i) then "Ready" else "Not Ready"))) ->
  (forall i, (i < length out)%nat -> x i == 0 \/ x i == 1) ->
  inject_Z (Z.of_nat (cluster_count out "Ready")) == MAC.qsum (length out) x.
Proof.
  intros Hl Hb. unfold cluster_count. rewrite filter_length_qsum.
  apply qsum_ext. intros k Hk. rewrite (Hl k Hk).
  destruct (Hb k Hk) as [H|H].
  - rewrite (Qlt_bool_half_zero _ H). cbn. by rewrite H.
  - rewrite (Qlt_bool_half_one _ H). cbn. by rewrite H.
Qed.

Lemma qsum_card_le (n : nat) (x : nat -> Q) :
  (forall i, (i < n)%nat -> x i == 0 \/ x i == 1) -> MAC.qsum n x <= inject_Z (Z.of_nat n).
Proof.
  intros Hb. rewrite <- (Qmult_1_r (inject_Z _)), <- qsum_const.
  apply qsum_le. intros k Hk. destruct (Hb k Hk) as [H|H]; rewrite H; lra.
Qed.

(** X5: the single-profile pipeline [cluster_artists(calculate_all_distances
    (data, ideal, weights), min_ready_artists)], with a solver that honours
    its contract, never raises [KeyError] or [TypeError]: it returns when
    there is no record or at least [min_ready_artists] records, and
    otherwise raises [AttributeError] (reading [x[0].X] of an infeasible
    model). *)
Theorem ac_pipeline_outcome (py_float : string -> option Q) (solve : AC.ilp1 -> AC.solution1)
    (data : list row) (ideal : list (string * Q)) (w : gmap string Q) (mr : Z) :
  (forall m, ACILP.build_model1 (AC.calculate_all_distances py_float data ideal w) mr = Ok m ->
     ACILP.solver1_contract solve m) ->
  ((data = [] \/ (mr <= Z.of_nat (length data))%Z) ->
     exists out, AC.cluster_artists solve (AC.calculate_all_distances py_float data ideal w) mr
                 = Ok out) /\
  (data <> [] -> (Z.of_nat (length data) < mr)%Z ->
     AC.cluster_artists solve (AC.calculate_all_distances py_float data ideal w) mr
     = Err AttributeError).
Proof.
  intros Hsolve.
  destruct (costs1_distances py_float data ideal w) as [c Hc].
  rewrite cluster_artists1_model. unfold ACILP.build_model1 in *. rewrite Hc in *. cbn [bind] in *.
  set (d := AC.calculate_all_distances py_float data ideal w) in *.
  assert (Hld : length d = length data) by (unfold d, AC.calculate_all_distances; apply length_map).
  set (m := {| AC.n1 := length d; AC.cost1 := c; AC.min_ready := mr |}) in *.
  pose proof (Hsolve m eq_refl) as Hm. unfold ACILP.solver1_contract in Hm.
  split.
  - intros Hcase. destruct (solve m) as [x|] eqn:Hs.
    + destruct (label_rows1_solved x 0 d) as [out [Ho _]]. by exists out.
    + destruct Hcase as [Hnil|Hle].
      * subst data. exists []. reflexivity.
      * exfalso. apply (Hm (fun _ => 1)). apply feasible1_spec. split.
        -- intros i _. right. reflexivity.
        -- cbn [AC.n1 AC.min_ready m]. rewrite qsum_const, Qmult_1_r, Hld.
           rewrite <- Zle_Qle. exact Hle.
  - intros Hne Hlt. destruct (solve m) as [x|] eqn:Hs.
    + exfalso. destruct Hm as [Hf _]. apply feasible1_spec in Hf as [Hb Hsum].
      pose proof (qsum_card_le _ _ Hb) as Hcard. cbn [AC.n1 AC.min_ready m] in Hsum, Hcard.
      rewrite Hld in Hcard, Hsum.
      assert (Hq : inject_Z (Z.of_nat (length data)) < inject_Z mr) by (rewrite <- Zlt_Qlt; exact Hlt).
      lra.
    + destruct data as [|r rs]; [done|]. reflexivity.
Qed.

(** A one-record program requiring one 'Ready' record has the single
    solution [x[0] = 1]. *)
Lemma one_ready_contract (data : list row) (m : AC.ilp1) :
  length data = 1%nat -> ACILP.build_model1 data 1 = Ok m ->
  ACILP.solver1_contract (fun _ => AC.Solved1 (fun _ => 1)) m.
Proof.
  intros Hl Hb. unfold ACILP.build_model1 in Hb.
  destruct (AC.costs1 data); cbn [bind] in Hb; [|discriminate]. injection Hb as <-.
  unfold ACILP.solver1_contract. split.
  - apply feasible1_spec. cbn [AC.n1 AC.min_ready]. rewrite Hl.
    split; [intros; right; reflexivity | cbn [MAC.qsum]; change (inject_Z 1) with 1; lra].
  - intros y Hy. apply feasible1_spec in Hy as [Hb Hs]. cbn [AC.n1 AC.min_ready] in Hb, Hs.
    rewrite Hl in Hb, Hs. unfold ACILP.objective1. cbn [AC.n1]. rewrite Hl.
    cbn [MAC.qsum] in Hs |- *. change (inject_Z 1) with 1 in Hs.
    destruct (Hb 0%nat ltac:(lia)) as [H0|H1]; [rewrite H0 in Hs; lra|]. rewrite H1. lra.
Qed.

Lemma ac_pipeline_outcome_witness :
  exists out, AC.cluster_artists (fun _ => AC.Solved1 (fun _ => 1))
                (AC.calculate_all_distances parse_decimal [numeric_row] AC.ideal_artist AC.weights) 1
              = Ok out.
Proof.
  refine (proj1 (ac_pipeline_outcome parse_decimal (fun _ => AC.Solved1 (fun _ => 1))
                   [numeric_row] AC.ideal_artist AC.weights 1 _) _).
  - intros m Hm. apply (one_ready_contract (AC.calculate_all_distances parse_decimal [numeric_row] AC.ideal_artist AC.weights) m); [reflexivity | exact Hm].
  - right. cbn. lia.
Defined.

Lemma label_rows1_rows (x : nat -> Q) (i0 : nat) (rows out : list row) :
  AC.label_rows1 (AC.Solved1 x) i0 rows = Ok out ->
  length out = length rows /\
  forall i, (i < length rows)%nat ->
    nth i out ∅ = <["Cluster" := VStr (if Qlt_bool (1#2) (x (i0 + i)%nat)
                                       then "Ready" else "Not Ready")]> (nth i rows ∅).
Proof.
  revert i0 out; induction rows as [|r rs IH]; intros i0 out H; cbn [AC.label_rows1] in H.
  - injection H as <-. split; [reflexivity|]. intros i Hi; cbn in Hi; lia.
  - destruct (AC.label_rows1 (AC.Solved1 x) (S i0) rs) as [rs'|e] eqn:Hr; cbn [bind] in H;
      [|discriminate].
    injection H as <-. destruct (IH (S i0) rs' Hr) as [Hl Hn].
    split; [cbn; lia|]. intros [|i] Hi; cbn [nth].
    + by rewrite Nat.add_0_r.
    + rewrite Hn by (cbn in Hi; lia). by replace (S i0 + i)%nat with (i0 + S i)%nat by lia.
Qed.

Lemma ac_cluster_rows (solve : AC.ilp1 -> AC.solution1) (data : list row) (mr : Z)
    (out : list row) :
  (forall m, ACILP.build_model1 data mr = Ok m -> ACILP.solver1_contract solve m) ->
  data <> [] ->
  AC.cluster_artists solve data mr = Ok out ->
  exists c x, AC.costs1 data = Ok c /\
    ACILP.optimal1 {| AC.n1 := length data; AC.cost1 := c; AC.min_ready := mr |} x /\
    length out = length data /\
    forall i, (i < length data)%nat ->
      nth i out ∅ = <["Cluster" := VStr (if Qlt_bool (1#2) (x i)
                                         then "Ready" else "Not Ready")]> (nth i data ∅).
Proof.
  intros Hsolve Hne H. unfold AC.cluster_artists in H.
  destruct (AC.costs1 data) as [c|e] eqn:Hc; cbn [bind] in H; [|discriminate].
  set (m := {| AC.n1 := length data; AC.cost1 := c; AC.min_ready := mr |}) in *.
  assert (Hm : ACILP.solver1_contract solve m)
    by (apply Hsolve; unfold ACILP.build_model1; rewrite Hc; reflexivity).
  unfold ACILP.solver1_contract in Hm.
  destruct (solve m) as [x|] eqn:Hs.
  - destruct (label_rows1_rows x 0 data out H) as [Hl Hn].
    exists c, x. split; [reflexivity|]. split; [exact Hm|]. split; [exact Hl|].
    intros i Hi. exact (Hn i Hi).
  - destruct data; [done | discriminate].
Qed.

Lemma objective1_upd (m : AC.ilp1) (x : nat -> Q) (a : nat) (v : Q) :
  (a < AC.n1 m)%nat ->
  ACILP.objective1 m (fun k => if (k =? a)%nat then v else x k)
  == ACILP.objective1 m x - x a * nth a (AC.cost1 m) 0 + v * nth a (AC.cost1 m) 0.
Proof.
  intros Ha. unfold ACILP.objective1.
  rewrite (qsum_ext _ _ (fun k => if (k =? a)%nat then v * nth a (AC.cost1 m) 0
                                  else x k * nth k (AC.cost1 m) 0)).
  - rewrite (qsum_update _ a (fun k => x k * nth k (AC.cost1 m) 0) _ Ha). reflexivity.
  - intros k Hk. by destruct (Nat.eqb_spec k a) as [->|].
Qed.

Lemma binary_upd (n a : nat) (x : nat -> Q) (v : Q) :
  (forall i, (i < n)%nat -> x i == 0 \/ x i == 1) -> (v == 0 \/ v == 1) ->
  forall i, (i < n)%nat -> (if (i =? a)%nat then v else x i) == 0 \/
                           (if (i =? a)%nat then v else x i) == 1.
Proof. intros Hb Hv i Hi. destruct (i =? a)%nat; [exact Hv | exact (Hb i Hi)]. Qed.

Lemma ac_label_value (x : nat -> Q) (data out : list row) (mr : Z) (c : list Q) (i : nat) (l : string) :
  (i < length data)%nat ->
  (forall i, (i < length data)%nat -> x i == 0 \/ x i == 1) ->
  (forall i, (i < length data)%nat ->
     nth i out ∅ = <["Cluster" := VStr (if Qlt_bool (1#2) (x i)
                                        then "Ready" else "Not Ready")]> (nth i data ∅)) ->
  nth i out ∅ !! "Cluster" = Some (VStr l) ->
  (l = "Ready"%string -> x i == 1) /\ (l = "Not Ready"%string -> x i == 0).
Proof.
  intros Hi Hb Hr Hl. rewrite (Hr i Hi), lookup_insert_eq in Hl. injection Hl as Hl.
  split; intros ->; [exact (label_ready x i (Hb i Hi) Hl) | exact (label_not_ready x i (Hb i Hi) Hl)].
Qed.

Lemma ideal_rows_contract (mr : Z) (m : AC.ilp1) :
  (mr <= 1)%Z ->
  ACILP.build_model1 Examples.ideal_rows mr = Ok m ->
  ACILP.solver1_contract (fun _ => AC.Solved1 Examples.x_first) m.
Proof.
  intros Hmr Hm.
  assert (Hc : AC.costs1 Examples.ideal_rows = Ok [0; 5]) by (vm_compute; reflexivity).
  unfold ACILP.build_model1 in Hm. rewrite Hc in Hm. cbn [bind] in Hm. injection Hm as <-.
  unfold ACILP.solver1_contract. split.
  - apply feasible1_spec. cbn [AC.n1 AC.min_ready length Examples.ideal_rows]. split.
    + intros i _. unfold Examples.x_first. destruct (i =? 0)%nat; [right|left]; reflexivity.
    + cbn [MAC.qsum Examples.x_first Nat.eqb]. rewrite Zle_Qle in Hmr.
      change (inject_Z 1) with 1 in Hmr. lra.
  - intros y Hy. apply feasible1_spec in Hy as [Hb _]. cbn [AC.n1] in Hb.
    unfold ACILP.objective1. cbn [AC.n1 AC.cost1 MAC.qsum nth Examples.x_first Nat.eqb].
    destruct (Hb 1%nat ltac:(lia)) as [H|H]; rewrite H; lra.
Qed.

(** X6: a returning [cluster_artists] on at least one record, with a solver
    that honours its contract, returns one row per record, each the
    record with a [Cluster] field set to 'Ready' or 'Not Ready' and no other
    change, and at least [min_ready_artists] of them are 'Ready'. *)
Theorem ac_cluster_labels (solve : AC.ilp1 -> AC.solution1) (data : list row) (mr : Z)
    (out : list row) :
  (forall m, ACILP.build_model1 data mr = Ok m -> ACILP.solver1_contract solve m) ->
  data <> [] ->
  AC.cluster_artists solve data mr = Ok out ->
  length out = length data /\
  (forall i, (i < length data)%nat ->
     exists lbl, (lbl = "Ready"%string \/ lbl = "Not Ready"%string) /\
       nth i out ∅ = <["Cluster" := VStr lbl]> (nth i data ∅)) /\
  (mr <= Z.of_nat (cluster_count out "Ready"))%Z.
Proof.
  intros Hs Hne H. destruct (ac_cluster_rows _ _ _ _ Hs Hne H) as (c & x & Hc & [Hf _] & Hl & Hr).
  apply feasible1_spec in Hf as [Hb Hsum]. cbn [AC.n1 AC.min_ready] in Hb, Hsum.
  split; [exact Hl|]. split.
  - intros i Hi. eexists. split; [|exact (Hr i Hi)].
    destruct (Qlt_bool _ _); [left|right]; reflexivity.
  - assert (Hcnt : inject_Z (Z.of_nat (cluster_count out "Ready")) == MAC.qsum (length out) x).
    { apply ac_ready_count; rewrite Hl; intros i Hi;
        [rewrite (Hr i Hi); apply lookup_insert_eq | exact (Hb i Hi)]. }
    rewrite Hl in Hcnt. rewrite Zle_Qle. lra.
Qed.

Lemma ac_cluster_labels_witness :
  exists out, AC.cluster_artists (fun _ => AC.Solved1 Examples.x_first) Examples.ideal_rows 1
              = Ok out /\
  length out = length Examples.ideal_rows /\
  (forall i, (i < length Examples.ideal_rows)%nat ->
     exists lbl, (lbl = "Ready"%string \/ lbl = "Not Ready"%string) /\
       nth i out ∅ = <["Cluster" := VStr lbl]> (nth i Examples.ideal_rows ∅)) /\
  (1 <= Z.of_nat (cluster_count out "Ready"))%Z.
Proof.
  eexists. split; [apply (result_ok _ []); vm_compute; reflexivity|].
  apply (ac_cluster_labels (fun _ => AC.Solved1 Examples.x_first) Examples.ideal_rows 1).
  - intros m. apply (ideal_rows_contract 1 m). lia.
  - discriminate.
  - apply (result_ok _ []). vm_compute. reflexivity.
Defined.

(** X7: in a returning [cluster_artists] with a solver that honours its
    contract, every 'Ready' record is at most as far from the ideal artist
    as every 'Not Ready' record. *)
Theorem ac_ready_closest (solve : AC.ilp1 -> AC.solution1) (data : list row) (mr : Z)
    (out : list row) :
  (forall m, ACILP.build_model1 data mr = Ok m -> ACILP.solver1_contract solve m) ->
  AC.cluster_artists solve data mr = Ok out ->
  forall i k di dk, (i < length data)%nat -> (k < length data)%nat ->
    nth i out ∅ !! "Cluster" = Some (VStr "Ready") ->
    nth k out ∅ !! "Cluster" = Some (VStr "Not Ready") ->
    nth i data ∅ !! "Distance_to_Ideal" = Some (VNum di) ->
    nth k data ∅ !! "Distance_to_Ideal" = Some (VNum dk) ->
    di <= dk.
Proof.
  intros Hs H i k di dk Hi Hk Hli Hlk Hdi Hdk.
  assert (Hne : data <> []) by (intros ->; cbn in Hi; lia).
  destruct (ac_cluster_rows _ _ _ _ Hs Hne H) as (c & x & Hc & [Hf Hopt] & Hl & Hr).
  set (m := {| AC.n1 := length data; AC.cost1 := c; AC.min_ready := mr |}) in *.
  destruct (costs1_nth _ _ Hc) as [_ Hcn].
  rewrite Hcn in Hdi, Hdk by assumption. injection Hdi as <-. injection Hdk as <-.
  pose proof Hf as Hf'. apply feasible1_spec in Hf' as [Hb Hsum]. cbn [AC.n1 AC.min_ready m] in Hb, Hsum.
  pose proof (proj1 (ac_label_value x data out mr c i _ Hi Hb Hr Hli) eq_refl) as Hxi.
  pose proof (proj2 (ac_label_value x data out mr c k _ Hk Hb Hr Hlk) eq_refl) as Hxk.
  assert (Hik : i <> k) by (intros ->; lra).
  pose (y0 := fun b => if (b =? i)%nat then 0 else x b).
  assert (Hy0k : y0 k == x k)
    by (unfold y0; rewrite (proj2 (Nat.eqb_neq k i)) by congruence; reflexivity).
  assert (Hfy : ACILP.feasible1 m (fun a => if (a =? k)%nat then 1 else y0 a)).
  { apply feasible1_spec. cbn [AC.n1 AC.min_ready m]. split.
    - apply binary_upd; [apply binary_upd; [exact Hb | left; reflexivity] | right; reflexivity].
    - rewrite (qsum_update _ k y0 1 Hk). unfold y0 at 1. rewrite (qsum_update _ i x 0 Hi).
      rewrite Hy0k, Hxi, Hxk. lra. }
  pose proof (Hopt _ Hfy) as Hle.
  rewrite (objective1_upd m y0 k 1) in Hle by (cbn; exact Hk).
  unfold y0 at 1 in Hle. rewrite (objective1_upd m x i 0) in Hle by (cbn; exact Hi).
  rewrite Hy0k, Hxi, Hxk in Hle. cbn [AC.cost1 m] in Hle. lra.
Qed.

Lemma ac_ready_closest_witness :
  exists out, AC.cluster_artists (fun _ => AC.Solved1 Examples.x_first) Examples.ideal_rows 1
              = Ok out /\
  forall i k di dk, (i < length Examples.ideal_rows)%nat -> (k < length Examples.ideal_rows)%nat ->
    nth i out ∅ !! "Cluster" = Some (VStr "Ready") ->
    nth k out ∅ !! "Cluster" = Some (VStr "Not Ready") ->
    nth i Examples.ideal_rows ∅ !! "Distance_to_Ideal" = Some (VNum di) ->
    nth k Examples.ideal_rows ∅ !! "Distance_to_Ideal" = Some (VNum dk) ->
    di <= dk.
Proof.
  eexists. split; [apply (result_ok _ []); vm_compute; reflexivity|].
  apply (ac_ready_closest (fun _ => AC.Solved1 Examples.x_first) Examples.ideal_rows 1).
  - intros m. apply (ideal_rows_contract 1 m). lia.
  - apply (result_ok _ []). vm_compute. reflexivity.
Defined.

(** X8: in a returning [cluster_artists] with a solver that honours its
    contract, no 'Not Ready' record has a negative distance, and when more
    than [min_ready_artists] records are 'Ready', none of them has a
    positive distance. *)
Theorem ac_ready_surplus (solve : AC.ilp1 -> AC.solution1) (data : list row) (mr : Z)
    (out : list row) :
  (forall m, ACILP.build_model1 data mr = Ok m -> ACILP.solver1_contract solve m) ->
  AC.cluster_artists solve data mr = Ok out ->
  (forall k dk, (k < length data)%nat ->
     nth k out ∅ !! "Cluster" = Some (VStr "Not Ready") ->
     nth k data ∅ !! "Distance_to_Ideal" = Some (VNum dk) -> 0 <= dk) /\
  ((mr < Z.of_nat (cluster_count out "Ready"))%Z ->
   forall i di, (i < length data)%nat ->
     nth i out ∅ !! "Cluster" = Some (VStr "Ready") ->
     nth i data ∅ !! "Distance_to_Ideal" = Some (VNum di) -> di <= 0).
Proof.
  intros Hs H. destruct data as [|r0 rs0] eqn:Hd.
  { split; [intros k dk Hk|intros _ i di Hi]; cbn in *; lia. }
  rewrite <- Hd in *. assert (Hne : data <> []) by (rewrite Hd; discriminate).
  destruct (ac_cluster_rows _ _ _ _ Hs Hne H) as (c & x & Hc & [Hf Hopt] & Hl & Hr).
  set (m := {| AC.n1 := length data; AC.cost1 := c; AC.min_ready := mr |}) in *.
  destruct (costs1_nth _ _ Hc) as [_ Hcn].
  pose proof Hf as Hf'. apply feasible1_spec in Hf' as [Hb Hsum]. cbn [AC.n1 AC.min_ready m] in Hb, Hsum.
  split.
  - intros k dk Hk Hlk Hdk. rewrite Hcn in Hdk by exact Hk. injection Hdk as <-.
    pose proof (proj2 (ac_label_value x data out mr c k _ Hk Hb Hr Hlk) eq_refl) as Hxk.
    assert (Hfy : ACILP.feasible1 m (fun a => if (a =? k)%nat then 1 else x a)).
    { apply feasible1_spec. cbn [AC.n1 AC.min_ready m]. split.
      - apply binary_upd; [exact Hb | right; reflexivity].
      - rewrite (qsum_update _ k x 1 Hk), Hxk. lra. }
    pose proof (Hopt _ Hfy) as Hle.
    rewrite (objective1_upd m x k 1) in Hle by (cbn; exact Hk).
    rewrite Hxk in Hle. cbn [AC.cost1 m] in Hle. lra.
  - intros Hlt i di Hi Hli Hdi. rewrite Hcn in Hdi by exact Hi. injection Hdi as <-.
    pose proof (proj1 (ac_label_value x data out mr c i _ Hi Hb Hr Hli) eq_refl) as Hxi.
    assert (Hcnt : inject_Z (Z.of_nat (cluster_count out "Ready")) == MAC.qsum (length out) x).
    { apply ac_ready_count; rewrite Hl; intros j Hj;
        [rewrite (Hr j Hj); apply lookup_insert_eq | exact (Hb j Hj)]. }
    rewrite Hl in Hcnt.
    assert (Hmr : inject_Z mr + 1 <= inject_Z (Z.of_nat (cluster_count out "Ready"))).
    { change (inject_Z mr + inject_Z 1 <= inject_Z (Z.of_nat (cluster_count out "Ready"))). rewrite <- (inject_Z_plus mr 1), <- Zle_Qle. lia. }
    assert (Hfy : ACILP.feasible1 m (fun a => if (a =? i)%nat then 0 else x a)).
    { apply feasible1_spec. cbn [AC.n1 AC.min_ready m]. split.
      - apply binary_upd; [exact Hb | left; reflexivity].
      - rewrite (qsum_update _ i x 0 Hi), Hxi. lra. }
    pose proof (Hopt _ Hfy) as Hle.
    rewrite (objective1_upd m x i 0) in Hle by (cbn; exact Hi).
    rewrite Hxi in Hle. cbn [AC.cost1 m] in Hle. lra.
Qed.

Lemma ac_ready_surplus_witness :
  exists out, AC.cluster_artists (fun _ => AC.Solved1 Examples.x_first) Examples.ideal_rows 0
              = Ok out /\
  nth 1 out ∅ !! "Cluster" = Some (VStr "Not Ready") /\
  (0 < Z.of_nat (cluster_count out "Ready"))%Z /\
  nth 0 out ∅ !! "Cluster" = Some (VStr "Ready") /\
  (forall k dk, (k < length Examples.ideal_rows)%nat ->
     nth k out ∅ !! "Cluster" = Some (VStr "Not Ready") ->
     nth k Examples.ideal_rows ∅ !! "Distance_to_Ideal" = Some (VNum dk) -> 0 <= dk) /\
  ((0 < Z.of_nat (cluster_count out "Ready"))%Z ->
   forall i di, (i < length Examples.ideal_rows)%nat ->
     nth i out ∅ !! "Cluster" = Some (VStr "Ready") ->
     nth i Examples.ideal_rows ∅ !! "Distance_to_Ideal" = Some (VNum di) -> di <= 0).
Proof.
  assert (Ho : AC.cluster_artists (fun _ => AC.Solved1 Examples.x_first) Examples.ideal_rows 0
               = Ok (ok_or (AC.cluster_artists (fun _ => AC.Solved1 Examples.x_first)
                              Examples.ideal_rows 0) []))
    by (apply (result_ok _ []); vm_compute; reflexivity).
  eexists. split; [exact Ho|].
  split; [vm_compute; reflexivity|].
  split; [vm_compute; reflexivity|].
  split; [vm_compute; reflexivity|].
  apply (ac_ready_surplus (fun _ => AC.Solved1 Examples.x_first) Examples.ideal_rows 0).
  - intros m. apply (ideal_rows_contract 0 m). lia.
  - exact Ho.
Defined.

(** ** The distance columns of the multi-profile pipeline *)

Lemma add_distances_keep (py_float : string -> option Q) (P : Q -> Prop) (r : row)
    (ps : list (string * MAC.profile_entry)) (k : string) (q : Q) :
  (forall nm e, In (nm, e) ps -> forall r', P (MAC.calculate_distance py_float r' (MAC.profile e)).1) ->
  r !! k = Some (VNum q) -> P q ->
  exists q', MAC.add_distances py_float r ps !! k = Some (VNum q') /\ P q'.
Proof.
  revert r q; induction ps as [|[nm e] ps IH]; intros r q HP Hk Hq; cbn [MAC.add_distances].
  - by exists q.
  - assert (HP' : forall nm' e', In (nm', e') ps ->
              forall r', P (MAC.calculate_distance py_float r' (MAC.profile e')).1)
      by (intros nm' e' Hin; apply (HP nm' e'); right; exact Hin).
    destruct (String.eq_dec k (dist_key nm)) as [->|Hne].
    + apply (IH _ (MAC.calculate_distance py_float r (MAC.profile e)).1 HP').
      * apply lookup_insert_eq.
      * apply (HP nm e). left; reflexivity.
    + apply (IH _ q HP'); [|exact Hq]. rewrite lookup_insert_ne by congruence. exact Hk.
Qed.

Lemma add_distances_col (py_float : string -> option Q) (P : Q -> Prop) (r : row)
    (ps : list (string * MAC.profile_entry)) (nm : string) :
  (forall nm e, In (nm, e) ps -> forall r', P (MAC.calculate_distance py_float r' (MAC.profile e)).1) ->
  In nm (map fst ps) ->
  exists q, MAC.add_distances py_float r ps !! dist_key nm = Some (VNum q) /\ P q.
Proof.
  revert r; induction ps as [|[nm0 e] ps IH]; intros r HP Hin; cbn [map fst In] in Hin;
    [contradiction|].
  assert (HP' : forall nm' e', In (nm', e') ps ->
            forall r', P (MAC.calculate_distance py_float r' (MAC.profile e')).1)
    by (intros nm' e' Hin'; apply (HP nm' e'); right; exact Hin').
  cbn [MAC.add_distances].
  destruct (in_dec String.eq_dec nm (map fst ps)) as [Hin'|Hnin].
  - exact (IH _ HP' Hin').
  - destruct Hin as [<-|Hin]; [|contradiction].
    apply (add_distances_keep py_float P _ ps _ (MAC.calculate_distance py_float r (MAC.profile e)).1 HP').
    + apply lookup_insert_eq.
    + apply (HP nm0 e). left; reflexivity.
Qed.

Lemma column_num (data : list row) (k : string) :
  (forall i, (i < length data)%nat -> exists q, nth i data ∅ !! k = Some (VNum q)) ->
  exists qs, MAC.column data k = Ok (map VNum qs) /\ length qs = length data /\
    forall i, (i < length data)%nat -> nth i data ∅ !! k = Some (VNum (nth i qs 0)).
Proof.
  induction data as [|r rs IH]; intros H.
  - exists []. split; [reflexivity|]. split; [reflexivity|]. intros i Hi; cbn in Hi; lia.
  - destruct (H 0%nat ltac:(cbn; lia)) as [q Hq]. cbn [nth] in Hq.
    destruct IH as [qs [Hc [Hl Hn]]].
    { intros i Hi. apply (H (S i)). cbn; lia. }
    exists (q :: qs). cbn [MAC.column]. rewrite Hq, Hc. cbn [bind map].
    split; [reflexivity|]. split; [cbn; lia|].
    intros [|i] Hi; cbn [nth]; [exact Hq|]. apply Hn. cbn in Hi; lia.
Qed.

Lemma floats_vnum (qs : list Q) : MAC.floats (map VNum qs) = Ok qs.
Proof. induction qs as [|q qs IH]; cbn [map MAC.floats]; [reflexivity|]. by rewrite IH. Qed.

Lemma normalize_column_num (data : list row) (nm : string) (qs : list Q) :
  MAC.column data (dist_key nm) = Ok (map VNum qs) ->
  MAC.normalize_column data nm =
    let max_distance := match qs with [] => 1 | d :: ds => py_max d ds end in
    if Qeq_bool max_distance 0 then
      match data with [] => Ok data | _ => Err ZeroDivisionError end
    else Ok (zip_with (fun r d => <[dist_key nm := VNum (d / max_distance)]> r) data qs).
Proof. intros Hc. unfold MAC.normalize_column. rewrite Hc. cbn [bind]. by rewrite floats_vnum. Qed.

Lemma normalize_names_nil (names : list string) : MAC.normalize_names [] names = Ok [].
Proof.
  induction names as [|nm ns IH]; [reflexivity|]. cbn [MAC.normalize_names].
  replace (MAC.normalize_column [] nm) with (Ok (@nil row)) by reflexivity. exact IH.
Qed.

Lemma normalize_names_outcome (data : list row) (names : list string) :
  (forall i nm, (i < length data)%nat -> In nm names ->
     exists q, nth i data ∅ !! dist_key nm = Some (VNum q)) ->
  forall e, MAC.normalize_names data names = Err e -> e = ZeroDivisionError.
Proof.
  revert data; induction names as [|nm ns IH]; intros data H e He;
    cbn [MAC.normalize_names] in He; [discriminate|].
  destruct (MAC.normalize_column data nm) as [d1|e1] eqn:H1; cbn [bind] in He.
  - destruct (normalize_column_frame _ _ _ H1) as [Hl1 Hf1].
    apply (IH d1); [|exact He]. intros i nm' Hi Hin.
    rewrite Hl1 in Hi. destruct (Hf1 i Hi) as [Hk [q Hq]].
    destruct (String.eq_dec (dist_key nm') (dist_key nm)) as [->|Hne]; [by exists q|].
    rewrite Hk by exact Hne. apply H; [exact Hi | right; exact Hin].
  - injection He as <-.
    destruct (column_num data (dist_key nm)) as [qs [Hc _]].
    { intros i Hi. apply H; [exact Hi | left; reflexivity]. }
    rewrite (normalize_column_num _ _ _ Hc) in H1. cbv zeta in H1.
    destruct (Qeq_bool _ 0); [|discriminate].
    destruct data; [discriminate|]. by injection H1.
Qed.

Lemma calculate_all_distances_cols (py_float : string -> option Q) (data : list row)
    (ps : list (string * MAC.profile_entry)) :
  forall i nm, (i < length (map (fun r => MAC.add_distances py_float r ps) data))%nat ->
    In nm (map fst ps) ->
    exists q, nth i (map (fun r => MAC.add_distances py_float r ps) data) ∅ !! dist_key nm
              = Some (VNum q).
Proof.
  intros i nm Hi Hin. rewrite length_map in Hi. rewrite nth_map_row by exact Hi.
  destruct (add_distances_col py_float (fun _ => True) (nth i data ∅) ps nm) as [q [Hq _]];
    [done | exact Hin |]. by exists q.
Qed.

(** X9: the multi-profile [calculate_all_distances] never raises
    [KeyError] or [TypeError]: every distance column it normalises holds a
    float for every record. It returns the empty list on no record, and its
    only possible exception is [ZeroDivisionError]. *)
Theorem mac_distances_outcome (py_float : string -> option Q) (data : list row)
    (ps : list (string * MAC.profile_entry)) :
  MAC.calculate_all_distances py_float [] ps = Ok [] /\
  forall e, MAC.calculate_all_distances py_float data ps = Err e -> e = ZeroDivisionError.
Proof.
  split.
  - apply normalize_names_nil.
  - apply normalize_names_outcome. apply calculate_all_distances_cols.
Qed.

Lemma dist_key_inj (a b : string) : dist_key a = dist_key b -> a = b.
Proof. unfold dist_key. cbn. intros H. by repeat injection H as H. Qed.

Lemma py_max_bound (x : Q) (l : list Q) :
  x <= py_max x l /\ (forall y, In y l -> y <= py_max x l) /\ (py_max x l = x \/ In (py_max x l) l).
Proof.
  revert x; induction l as [|y l IH]; intros x; cbn [py_max In].
  - split; [apply Qle_refl|]. split; [done|]. by left.
  - destruct (IH (if Qlt_bool x y then y else x)) as [H1 [H2 H3]].
    destruct (Qlt_bool x y) eqn:E.
    + assert (Hxy : x < y).
      { unfold Qlt_bool in E. apply negb_true_iff in E.
        apply Qnot_le_lt. intros Hle. apply Qle_bool_iff in Hle. congruence. }
      split; [lra|]. split; [intros z [<-|Hz]; [exact H1 | exact (H2 z Hz)]|].
      right. destruct H3 as [->|H3]; [left; reflexivity | right; exact H3].
    + assert (Hxy : y <= x).
      { unfold Qlt_bool in E. apply negb_false_iff in E. apply Qle_bool_iff, E. }
      split; [exact H1|]. split; [intros z [<-|Hz]; [lra | exact (H2 z Hz)]|].
      destruct H3 as [->|H3]; [left; reflexivity | right; right; exact H3].
Qed.

Lemma not_in_dist_keys (nm : string) (names : list string) :
  ~ In nm names -> ~ In (dist_key nm) (map dist_key names).
Proof.
  intros Hn Hin. apply in_map_iff in Hin as [x [Hx Hin]].
  apply dist_key_inj in Hx. subst x. contradiction.
Qed.

(** After [normalize_distances] over distinct names, the column of every
    name holds its values before the loop divided by their maximum, which
    is not 0. *)
Lemma normalize_names_col (data d : list row) (names : list string) (nm : string) :
  NoDup names -> MAC.normalize_names data names = Ok d -> In nm names ->
  (forall i, (i < length data)%nat -> exists q, nth i data ∅ !! dist_key nm = Some (VNum q)) ->
  exists qs, length qs = length data /\
    (forall i, (i < length data)%nat -> nth i data ∅ !! dist_key nm = Some (VNum (nth i qs 0))) /\
    forall i, (i < length data)%nat ->
      ~ (match qs with [] => 1 | q :: qs' => py_max q qs' end == 0) /\
      nth i d ∅ !! dist_key nm
      = Some (VNum (nth i qs 0 / match qs with [] => 1 | q :: qs' => py_max q qs' end)).
Proof.
  revert data; induction names as [|n0 ns IH]; intros data Hnd H Hin Hpres; [contradiction|].
  apply NoDup_cons in Hnd as [Hn0 Hnd]. rewrite list_elem_of_In in Hn0.
  cbn [MAC.normalize_names] in H.
  destruct (MAC.normalize_column data n0) as [d1|e] eqn:H1; cbn [bind] in H; [|discriminate].
  destruct (normalize_column_frame _ _ _ H1) as [Hl1 Hf1].
  destruct Hin as [->|Hin].
  - destruct (column_num data (dist_key nm) Hpres) as [qs [Hc [Hlq Hq]]].
    exists qs. split; [exact Hlq|]. split; [exact Hq|].
    rewrite (normalize_column_num _ _ _ Hc) in H1. cbv zeta in H1.
    destruct (Qeq_bool _ 0) eqn:E.
    + destruct data; [|discriminate]. intros i Hi; cbn in Hi; lia.
    + injection H1 as <-. intros i Hi. split.
      * intros Hz. apply Qeq_bool_iff in Hz. congruence.
      * destruct (normalize_names_frame _ _ _ H) as [_ Hf].
        rewrite length_zip_with_eq in Hf by lia.
        destruct (Hf i Hi) as [Hk _].
        rewrite Hk by (apply not_in_dist_keys; exact Hn0).
        rewrite (nth_zip_with _ _ _ i ∅ 0%Q) by lia. apply lookup_insert_eq.
  - assert (Hne : dist_key nm <> dist_key n0).
    { intros E. apply dist_key_inj in E. subst. contradiction. }
    destruct (IH d1 Hnd H Hin) as [qs [Hlq [Hq Hd]]].
    { intros i Hi. rewrite Hl1 in Hi. destruct (Hf1 i Hi) as [Hk _].
      rewrite Hk by exact Hne. apply Hpres, Hi. }
    exists qs. split; [lia|]. split.
    + intros i Hi. destruct (Hf1 i Hi) as [Hk _]. rewrite <- Hk by exact Hne. apply Hq. lia.
    + intros i Hi. apply Hd. lia.
Qed.

Lemma mac_distance_nonneg (py_float : string -> option Q) (r : row) (p : list (string * Q)) :
  (forall f i, In (f, i) p -> 0 <= i) -> 0 <= (MAC.calculate_distance py_float r p).1.
Proof.
  intros Hi. rewrite (mac_distance_effective py_float r p Hi).
  apply (weighted_abs_sum (fun _ => 1)). intros; reflexivity.
Qed.

(** X10: with distinct profile names and non-negative ideal values, a
    returning multi-profile [calculate_all_distances] leaves one row per
    record, each [Distance_to_<name>] field a float between 0 and 1, and
    for each name some record at exactly 1 (its column's maximum). *)
Theorem mac_distances_normalized (py_float : string -> option Q) (data : list row)
    (ps : list (string * MAC.profile_entry)) (out : list row) :
  NoDup (map fst ps) ->
  (forall nm e, In (nm, e) ps -> forall f i, In (f, i) (MAC.profile e) -> 0 <= i) ->
  MAC.calculate_all_distances py_float data ps = Ok out ->
  length out = length data /\
  (forall i nm, (i < length data)%nat -> In nm (map fst ps) ->
     exists q, nth i out ∅ !! dist_key nm = Some (VNum q) /\ 0 <= q /\ q <= 1) /\
  (forall nm, In nm (map fst ps) -> data <> [] ->
     exists i q, (i < length data)%nat /\ nth i out ∅ !! dist_key nm = Some (VNum q) /\ q == 1).
Proof.
  intros Hnd Hnn H. unfold MAC.calculate_all_distances, MAC.normalize_distances in H.
  set (d0 := map (fun r => MAC.add_distances py_float r ps) data) in *.
  assert (Hl0 : length d0 = length data) by apply length_map.
  assert (HP : forall nm e, In (nm, e) ps ->
             forall r', 0 <= (MAC.calculate_distance py_float r' (MAC.profile e)).1)
    by (intros nm e Hin r'; apply mac_distance_nonneg, (Hnn nm e Hin)).
  assert (Hraw : forall i nm, (i < length data)%nat -> In nm (map fst ps) ->
            exists q, nth i d0 ∅ !! dist_key nm = Some (VNum q) /\ 0 <= q).
  { intros i nm Hi Hin. unfold d0. rewrite nth_map_row by exact Hi.
    exact (add_distances_col py_float (fun q => 0 <= q) _ ps nm HP Hin). }
  assert (Hcol : forall nm, In nm (map fst ps) ->
     exists qs, length qs = length data /\ (forall i, (i < length data)%nat -> 0 <= nth i qs 0) /\
       forall i, (i < length data)%nat ->
         ~ (match qs with [] => 1 | q :: qs' => py_max q qs' end == 0) /\
         nth i out ∅ !! dist_key nm
         = Some (VNum (nth i qs 0 / match qs with [] => 1 | q :: qs' => py_max q qs' end))).
  { intros nm Hin.
    destruct (normalize_names_col d0 out (map fst ps) nm Hnd H Hin) as [qs [Hlq [Hq Hd]]].
    { intros i Hi. rewrite Hl0 in Hi. destruct (Hraw i nm Hi Hin) as [q [Hq _]]. by exists q. }
    rewrite Hl0 in Hlq, Hq, Hd. exists qs. split; [exact Hlq|]. split; [|exact Hd].
    intros i Hi. destruct (Hraw i nm Hi Hin) as [q [Hq' Hq0]].
    rewrite (Hq i Hi) in Hq'. injection Hq' as ->. exact Hq0. }
  destruct (normalize_names_frame _ _ _ H) as [Hlo _]. rewrite Hl0 in Hlo.
  split; [exact Hlo|]. split.
  - intros i nm Hi Hin. destruct (Hcol nm Hin) as [qs [Hlq [Hq0 Hd]]].
    destruct (Hd i Hi) as [HM Hv]. eexists. split; [exact Hv|].
    destruct qs as [|q0 qs']; [cbn in Hlq; lia|].
    destruct (py_max_bound q0 qs') as [Hb0 [Hbs _]].
    assert (H0 : 0 <= q0) by exact (Hq0 0%nat ltac:(lia)).
    assert (Hpos : 0 < py_max q0 qs').
    { destruct (Qle_lt_or_eq 0 (py_max q0 qs')) as [Hlt|Heq]; [lra|exact Hlt|].
      exfalso. apply HM. rewrite Heq. reflexivity. }
    assert (Hle : nth i (q0 :: qs') 0 <= py_max q0 qs').
    { destruct i as [|i]; [exact Hb0|]. apply Hbs. cbn [nth]. apply nth_In. cbn in Hlq; lia. }
    split.
    + apply Qle_shift_div_l; [exact Hpos|]. rewrite Qmult_0_l. exact (Hq0 i Hi).
    + apply Qle_shift_div_r; [exact Hpos|]. rewrite Qmult_1_l. exact Hle.
  - intros nm Hin Hne. destruct (Hcol nm Hin) as [qs [Hlq [_ Hd]]].
    destruct qs as [|q0 qs']; [destruct data; [done|cbn in Hlq; lia]|].
    destruct (py_max_bound q0 qs') as [_ [_ Hel]].
    assert (Hex : exists i, (i < length data)%nat /\ nth i (q0 :: qs') 0 = py_max q0 qs').
    { destruct Hel as [Heq|Hel].
      - exists 0%nat. split; [cbn in Hlq; lia | cbn; symmetry; exact Heq].
      - apply (In_nth _ _ 0) in Hel as [k [Hk Hkv]].
        exists (S k). split; [cbn in Hlq; lia | exact Hkv]. }
    destruct Hex as [i [Hi Hv]]. destruct (Hd i Hi) as [HM Hval].
    exists i, (nth i (q0 :: qs') 0 / py_max q0 qs'). split; [exact Hi|]. split; [exact Hval|].
    rewrite Hv. field. exact HM.
Qed.

Lemma mac_distances_normalized_witness :
  exists out, MAC.calculate_all_distances parse_decimal [numeric_row] MAC.profiles = Ok out /\
  length out = length [numeric_row] /\
  (forall i nm, (i < length [numeric_row])%nat -> In nm (map fst MAC.profiles) ->
     exists q, nth i out ∅ !! dist_key nm = Some (VNum q) /\ 0 <= q /\ q <= 1) /\
  (forall nm, In nm (map fst MAC.profiles) -> [numeric_row] <> [] ->
     exists i q, (i < length [numeric_row])%nat /\ nth i out ∅ !! dist_key nm = Some (VNum q) /\
                 q == 1).
Proof.
  eexists. split; [apply (result_ok _ []); vm_compute; reflexivity|].
  apply (mac_distances_normalized parse_decimal [numeric_row] MAC.profiles).
  - apply (bool_decide_unpack _). vm_compute. exact I.
  - intros nm e Hin. apply nonneg_idealsb_spec.
    assert (Hall : forallb (fun p => nonneg_idealsb (MAC.profile (snd p))) MAC.profiles = true)
      by (vm_compute; reflexivity).
    rewrite forallb_forall in Hall. exact (Hall (nm, e) Hin).
  - apply (result_ok _ []). vm_compute. reflexivity.
Defined.

(** ** The multi-profile integer program on the pipeline's rows *)

Lemma row_costs_ok (r : row) (names : list string) :
  (forall nm, In nm names -> exists q, r !! dist_key nm = Some (VNum q)) ->
  exists cs, MAC.row_costs r names = Ok cs.
Proof.
  induction names as [|nm ns IH]; intros H; [by exists []|].
  destruct (H nm (or_introl eq_refl)) as [q Hq].
  destruct IH as [cs Hcs]; [intros nm' Hin; apply H; right; exact Hin|].
  exists ((q + MAC.penalty nm) :: cs). cbn [MAC.row_costs]. rewrite Hq, Hcs. reflexivity.
Qed.

Lemma cost_matrix_ok (data : list row) (names : list string) :
  (forall i nm, (i < length data)%nat -> In nm names ->
     exists q, nth i data ∅ !! dist_key nm = Some (VNum q)) ->
  exists c, MAC.cost_matrix data names = Ok c.
Proof.
  induction data as [|r rs IH]; intros H; [by exists []|].
  destruct (row_costs_ok r names) as [cs Hcs].
  { intros nm Hin. apply (H 0%nat nm); [cbn; lia | exact Hin]. }
  destruct IH as [c Hc]; [intros i nm Hi Hin; apply (H (S i) nm); [cbn; lia | exact Hin]|].
  exists (cs :: c). cbn [MAC.cost_matrix]. rewrite Hcs. cbn [bind]. rewrite Hc. reflexivity.
Qed.

Lemma first_cluster_solved_ok (x : nat -> nat -> Q) (i j : nat) (names : list string) :
  exists o, MAC.first_cluster (MAC.Solved x) i j names = Ok o.
Proof.
  revert j; induction names as [|nm ns IH]; intros j; [by eexists|].
  cbn [MAC.first_cluster MAC.read_X bind]. destruct (Qlt_bool _ _); [by eexists | apply IH].
Qed.

Lemma assign_clusters_solved_ok (x : nat -> nat -> Q) (i0 : nat) (names : list string)
    (rows : list row) :
  exists out, MAC.assign_clusters (MAC.Solved x) i0 names rows = Ok out.
Proof.
  revert i0; induction rows as [|r rs IH]; intros i0; [by eexists|].
  cbn [MAC.assign_clusters]. destruct (first_cluster_solved_ok x i0 0 names) as [o Ho].
  rewrite Ho. cbn [bind]. destruct (IH (S i0)) as [out Hout]. rewrite Hout. by eexists.
Qed.

Lemma qsum_add (n m : nat) (f : nat -> Q) :
  MAC.qsum (n + m) f == MAC.qsum n f + MAC.qsum m (fun k => f (n + k)%nat).
Proof.
  induction m as [|m IH].
  - rewrite Nat.add_0_r. cbn [MAC.qsum]. ring.
  - rewrite Nat.add_succ_r. cbn [MAC.qsum]. rewrite IH. ring.
Qed.

(** Record [i] in cluster [i mod K]: [a * K] records fill each cluster
    [a] times. *)
Lemma round_robin_count (K j a : nat) :
  (j < K)%nat ->
  MAC.qsum (a * K) (fun i => if (i mod K =? j)%nat then 1 else 0) == inject_Z (Z.of_nat a).
Proof.
  intros Hj. induction a as [|a IH]; [reflexivity|].
  rewrite Nat.mul_succ_l, qsum_add, IH.
  rewrite (qsum_ext _ _ (fun k => if (k =? j)%nat then 1 else 0)).
  - rewrite (qsum_indicator K j (fun _ => 1) Hj).
    rewrite Nat2Z.inj_succ, <- Z.add_1_r, inject_Z_plus. reflexivity.
  - intros k Hk. rewrite Nat.add_comm, Nat.Div0.mod_add, Nat.mod_small by exact Hk.
    reflexivity.
Qed.

Lemma round_robin_feasible (m : MAC.ilp) :
  MAC.n_cols m <> 0%nat -> (MAC.n_cols m <= MAC.n_rows m)%nat ->
  MAC.min_count m = Nat.max 1 (MAC.n_rows m / MAC.n_cols m) ->
  MAC.feasible m (fun i j => if (i mod MAC.n_cols m =? j)%nat then 1 else 0).
Proof.
  intros HK HKN Hmin. set (K := MAC.n_cols m) in *. set (N := MAC.n_rows m) in *.
  apply feasible_spec. fold K N. split; [|split].
  - intros i j _ _. destruct (_ =? _)%nat; [right|left]; reflexivity.
  - intros i _. rewrite (qsum_ext _ _ (fun j => if (j =? i mod K)%nat then 1 else 0)).
    + apply (qsum_indicator K (i mod K) (fun _ => 1)). apply Nat.mod_upper_bound, HK.
    + intros j _. by rewrite Nat.eqb_sym.
  - intros j Hj. rewrite Hmin.
    assert (Hq : (1 <= N / K)%nat) by (apply Nat.div_str_pos; lia).
    rewrite Nat.max_r by exact Hq.
    assert (HNK : (N / K * K <= N)%nat) by (rewrite Nat.mul_comm; apply Nat.Div0.mul_div_le).
    replace N with (N / K * K + (N - N / K * K))%nat at 2 by lia.
    rewrite qsum_add, (round_robin_count K j (N / K) Hj).
    assert (0 <= MAC.qsum (N - N / K * K)
                   (fun k => if ((N / K * K + k) mod K =? j)%nat then 1 else 0)).
    { apply qsum_nonneg. intros k _. destruct (_ =? _)%nat; lra. }
    lra.
Qed.

(** X11: on the rows returned by the multi-profile [calculate_all_distances]
    and with a solver that honours its contract, [cluster_artists] raises
    [ZeroDivisionError] when there is no profile ([len(data) //
    len(profiles)]); otherwise it returns when there is no record or at
    least as many records as profiles, and raises [AttributeError] when
    there are fewer (but at least one). It never raises [KeyError] or
    [TypeError]. *)
Theorem mac_pipeline_outcome (py_float : string -> option Q) (solve : MAC.ilp -> MAC.solution)
    (data : list row) (ps : list (string * MAC.profile_entry)) (d : list row) :
  MAC.calculate_all_distances py_float data ps = Ok d ->
  (forall m, MAC.build_model d ps = Ok m -> MAC.solver_contract solve m) ->
  (ps = [] -> MAC.cluster_artists solve d ps = Err ZeroDivisionError) /\
  (ps <> [] -> (data = [] \/ (length ps <= length data)%nat) ->
     exists out, MAC.cluster_artists solve d ps = Ok out) /\
  (ps <> [] -> (1 <= length data < length ps)%nat ->
     MAC.cluster_artists solve d ps = Err AttributeError).
Proof.
  intros Hd Hsolve.
  unfold MAC.calculate_all_distances, MAC.normalize_distances in Hd.
  destruct (normalize_names_frame _ _ _ Hd) as [Hld Hfd]. rewrite length_map in Hld.
  destruct (cost_matrix_ok d (map fst ps)) as [c Hc].
  { intros i nm Hi Hin. rewrite Hld in Hi. apply (Hfd i); [by rewrite length_map | exact Hin]. }
  unfold MAC.cluster_artists. unfold MAC.build_model in Hsolve |- *. rewrite Hc in Hsolve |- *.
  cbn [bind] in Hsolve |- *. unfold MAC.min_artists in Hsolve |- *. rewrite length_map in Hsolve |- *.
  split; [|split].
  - intros ->. reflexivity.
  - intros Hne Hcase. destruct (Nat.eqb_spec (length ps) 0) as [E|HK].
    { destruct ps; [done | discriminate]. }
    cbn [bind] in Hsolve |- *.
    set (m := {| MAC.n_rows := length d; MAC.n_cols := length ps; MAC.cost := c;
                 MAC.min_count := Nat.max 1 (length d / length ps) |}) in *.
    specialize (Hsolve m eq_refl). unfold MAC.solver_contract in Hsolve.
    destruct (solve m) as [x|].
    + apply assign_clusters_solved_ok.
    + destruct Hcase as [->|Hle].
      * destruct d; [by eexists | cbn in Hld; lia].
      * exfalso. apply (Hsolve (fun i j => if (i mod MAC.n_cols m =? j)%nat then 1 else 0)).
        apply round_robin_feasible; cbn [MAC.n_cols MAC.n_rows MAC.min_count m]; lia.
  - intros Hne Hlt. destruct (Nat.eqb_spec (length ps) 0) as [E|HK]; [lia|].
    cbn [bind] in Hsolve |- *.
    set (m := {| MAC.n_rows := length d; MAC.n_cols := length ps; MAC.cost := c;
                 MAC.min_count := Nat.max 1 (length d / length ps) |}) in *.
    specialize (Hsolve m eq_refl). unfold MAC.solver_contract in Hsolve.
    destruct (solve m) as [x|].
    + exfalso. pose proof (feasible_capacity m x (proj1 Hsolve)) as Hcap.
      cbn [MAC.n_cols MAC.n_rows MAC.min_count m] in Hcap. rewrite Hld in Hcap.
      rewrite Nat.div_small in Hcap by lia. lia.
    + apply assign_clusters_nosolution.
      * destruct ps; [done | discriminate].
      * destruct d; [cbn in Hld; lia | discriminate].
Qed.

Lemma mac_pipeline_outcome_witness :
  exists d, MAC.calculate_all_distances parse_decimal [numeric_row] MAC.profiles = Ok d /\
  (MAC.profiles = [] -> MAC.cluster_artists (fun _ => MAC.NoSolution) d MAC.profiles
                        = Err ZeroDivisionError) /\
  (MAC.profiles <> [] -> ([numeric_row] = [] \/ (length MAC.profiles <= length [numeric_row])%nat) ->
     exists out, MAC.cluster_artists (fun _ => MAC.NoSolution) d MAC.profiles = Ok out) /\
  (MAC.profiles <> [] -> (1 <= length [numeric_row] < length MAC.profiles)%nat ->
     MAC.cluster_artists (fun _ => MAC.NoSolution) d MAC.profiles = Err AttributeError).
Proof.
  eexists. split; [apply (result_ok _ []); vm_compute; reflexivity|].
  apply (mac_pipeline_outcome parse_decimal (fun _ => MAC.NoSolution) [numeric_row] MAC.profiles).
  - apply (result_ok _ []). vm_compute. reflexivity.
  - intros m Hm. unfold MAC.solver_contract. intros x Hf.
    pose proof (build_model_shape _ _ _ Hm) as [Hn [Hk [Hmin _]]].
    pose proof (feasible_capacity m x Hf) as Hcap. rewrite Hn, Hk, Hmin in Hcap.
    revert Hcap. vm_compute. lia.
Defined.

(** ** Exchanging the clusters of two records *)

(** Record [i] moved to cluster [jb] and record [k] to cluster [ja]. *)
Definition swap (x : nat -> nat -> Q) (i k ja jb : nat) (p q : nat) : Q :=
  if (p =? i)%nat then (if (q =? jb)%nat then 1 else 0)
  else if (p =? k)%nat then (if (q =? ja)%nat then 1 else 0)
  else x p q.

Lemma qsum_update2 (n i k : nat) (f : nat -> Q) (u v : Q) :
  (i < n)%nat -> (k < n)%nat -> i <> k ->
  MAC.qsum n (fun p => if (p =? i)%nat then u else if (p =? k)%nat then v else f p)
  == MAC.qsum n f - f i - f k + u + v.
Proof.
  intros Hi Hk Hik.
  rewrite (qsum_update n i (fun p => if (p =? k)%nat then v else f p) u Hi).
  rewrite (qsum_update n k f v Hk). rewrite (proj2 (Nat.eqb_neq i k) Hik). ring.
Qed.

Lemma row_unit (m : MAC.ilp) (x : nat -> nat -> Q) (i j : nat) :
  MAC.feasible m x -> (i < MAC.n_rows m)%nat -> (j < MAC.n_cols m)%nat -> x i j == 1 ->
  forall q, (q < MAC.n_cols m)%nat -> x i q == if (q =? j)%nat then 1 else 0.
Proof.
  intros Hf Hi Hj H1. apply feasible_spec in Hf as [Hb [Hr _]].
  destruct (binary_sum_one (MAC.n_cols m) (fun b => x i b)) as [j1 [Hj1 [Hx1 Hx0]]];
    [intros b Hbb; by apply Hb | by apply Hr |].
  assert (j1 = j) as ->.
  { destruct (Nat.eq_dec j1 j) as [|Hn1]; [done|].
    exfalso. pose proof (Hx0 j Hj (not_eq_sym Hn1)). lra. }
  intros q Hq. destruct (Nat.eqb_spec q j) as [->|Hqj]; [exact H1 | exact (Hx0 q Hq Hqj)].
Qed.

Lemma qsum_unit_cost (n j : nat) (g : nat -> Q) :
  (j < n)%nat -> MAC.qsum n (fun q => (if (q =? j)%nat then 1 else 0) * g q) == g j.
Proof.
  intros Hj. rewrite (qsum_ext _ _ (fun q => if (q =? j)%nat then g q else 0)).
  - exact (qsum_indicator n j g Hj).
  - intros q _. destruct (q =? j)%nat; ring.
Qed.

Lemma swap_feasible (m : MAC.ilp) (x : nat -> nat -> Q) (i k ja jb : nat) :
  MAC.feasible m x -> (i < MAC.n_rows m)%nat -> (k < MAC.n_rows m)%nat -> i <> k ->
  (ja < MAC.n_cols m)%nat -> (jb < MAC.n_cols m)%nat -> x i ja == 1 -> x k jb == 1 ->
  MAC.feasible m (swap x i k ja jb) /\
  MAC.objective m (swap x i k ja jb)
  == MAC.objective m x - MAC.cost_at m i ja - MAC.cost_at m k jb
     + MAC.cost_at m i jb + MAC.cost_at m k ja.
Proof.
  intros Hf Hi Hk Hik Hja Hjb H1i H1k.
  pose proof (row_unit m x i ja Hf Hi Hja H1i) as Hui.
  pose proof (row_unit m x k jb Hf Hk Hjb H1k) as Huk.
  pose proof Hf as Hf'. apply feasible_spec in Hf' as [Hb [Hr Hc]].
  split.
  - apply feasible_spec. split; [|split].
    + intros p q Hp Hq. unfold swap.
      destruct (p =? i)%nat; [destruct (q =? jb)%nat; [right|left]; reflexivity|].
      destruct (p =? k)%nat; [destruct (q =? ja)%nat; [right|left]; reflexivity|].
      by apply Hb.
    + intros p Hp. unfold swap. destruct (p =? i)%nat.
      * exact (qsum_indicator _ jb (fun _ => 1) Hjb).
      * destruct (p =? k)%nat; [exact (qsum_indicator _ ja (fun _ => 1) Hja) | by apply Hr].
    + intros q Hq. unfold swap.
      rewrite (qsum_update2 _ i k (fun p => x p q) _ _ Hi Hk Hik).
      rewrite (Hui q Hq), (Huk q Hq). specialize (Hc q Hq).
      destruct (q =? ja)%nat, (q =? jb)%nat; lra.
  - unfold MAC.objective.
    rewrite (qsum_ext _ _ (fun p => if (p =? i)%nat then MAC.cost_at m i jb
                                    else if (p =? k)%nat then MAC.cost_at m k ja
                                    else MAC.qsum (MAC.n_cols m) (fun q => x p q * MAC.cost_at m p q))).
    2:{ intros p Hp. unfold swap. destruct (Nat.eqb_spec p i) as [->|_].
        - exact (qsum_unit_cost _ jb (MAC.cost_at m i) Hjb).
        - destruct (Nat.eqb_spec p k) as [->|_]; [|reflexivity].
          exact (qsum_unit_cost _ ja (MAC.cost_at m k) Hja). }
    rewrite (qsum_update2 _ i k (fun p => MAC.qsum (MAC.n_cols m) (fun q => x p q * MAC.cost_at m p q))
               _ _ Hi Hk Hik).
    rewrite (qsum_ext _ (fun q => x i q * MAC.cost_at m i q)
               (fun q => (if (q =? ja)%nat then 1 else 0) * MAC.cost_at m i q))
      by (intros q Hq; rewrite (Hui q Hq); reflexivity).
    rewrite (qsum_ext _ (fun q => x k q * MAC.cost_at m k q)
               (fun q => (if (q =? jb)%nat then 1 else 0) * MAC.cost_at m k q))
      by (intros q Hq; rewrite (Huk q Hq); reflexivity).
    rewrite (qsum_unit_cost _ ja (MAC.cost_at m i) Hja), (qsum_unit_cost _ jb (MAC.cost_at m k) Hjb).
    ring.
Qed.

(** The labels of a returning multi-profile [cluster_artists] with a
    solver that honours its contract come from an optimal solution. *)
Lemma mac_cluster_solution (solve : MAC.ilp -> MAC.solution) (data : list row)
    (ps : list (string * MAC.profile_entry)) (out : list row) :
  (forall m, MAC.build_model data ps = Ok m -> MAC.solver_contract solve m) ->
  data <> [] ->
  MAC.cluster_artists solve data ps = Ok out ->
  exists m x, MAC.build_model data ps = Ok m /\ MAC.optimal m x /\
    forall i, (i < length data)%nat ->
      exists j, (j < length ps)%nat /\ x i j == 1 /\
        nth i out ∅ !! "Cluster" = Some (VStr (nth j (map fst ps) ""%string)).
Proof.
  intros Hcon Hne Hout. unfold MAC.cluster_artists in Hout.
  destruct (MAC.build_model data ps) as [m|e] eqn:Hb; cbn [bind] in Hout; [|discriminate].
  pose proof (build_model_shape _ _ _ Hb) as [Hr [Hk [_ Hk0]]].
  specialize (Hcon m eq_refl). unfold MAC.solver_contract in Hcon.
  destruct (solve m) as [x|] eqn:Hs.
  2:{ rewrite assign_clusters_nosolution in Hout; [discriminate| |exact Hne].
      destruct ps; [done|discriminate]. }
  exists m, x. split; [reflexivity|]. split; [exact Hcon|].
  destruct Hcon as [Hfeas _]. pose proof Hfeas as Hf'.
  apply feasible_spec in Hf' as [Hbin [Hrow _]]. rewrite Hr, Hk in *.
  assert (Hu : forall k, (k < length data)%nat ->
            exists j, (j < length (map fst ps))%nat /\ x (0 + k)%nat j == 1 /\
              forall j', (j' < length (map fst ps))%nat -> j' <> j -> x (0 + k)%nat j' == 0).
  { intros k Hkk. rewrite length_map. apply binary_sum_one.
    - intros j Hj. by apply Hbin.
    - by apply Hrow. }
  destruct (assign_clusters_solved x (map fst ps) data 0 out Hu Hout) as [Hlen Hlab].
  intros i Hi. destruct (lookup_lt_is_Some_2 data i Hi) as [r0 Hr0].
  destruct (Hlab i r0 Hr0) as [j [Hj [H1 Hoj]]]. rewrite length_map in Hj.
  exists j. split; [exact Hj|]. split; [exact H1|].
  rewrite (nth_lookup_Some out i ∅ _ Hoj). apply lookup_insert_eq.
Qed.

(** X12: in a returning multi-profile [cluster_artists] with a solver that
    honours its contract, exchanging the clusters of two records never
    lowers their total normalised distance: for records [i] in cluster [a]
    and [k] in cluster [b], [d(i, a) + d(k, b) <= d(i, b) + d(k, a)] (the
    penalties of the two clusters cancel). *)
Theorem mac_swap_stable (solve : MAC.ilp -> MAC.solution) (data : list row)
    (ps : list (string * MAC.profile_entry)) (out : list row) :
  (forall m, MAC.build_model data ps = Ok m -> MAC.solver_contract solve m) ->
  MAC.cluster_artists solve data ps = Ok out ->
  forall i k a b, (i < length data)%nat -> (k < length data)%nat ->
    nth i out ∅ !! "Cluster" = Some (VStr a) ->
    nth k out ∅ !! "Cluster" = Some (VStr b) ->
    norm_distance data i a + norm_distance data k b
    <= norm_distance data i b + norm_distance data k a.
Proof.
  intros Hcon Hout i k a b Hi Hk Ha Hb.
  assert (Hne : data <> []) by (intros ->; cbn in Hi; lia).
  destruct (mac_cluster_solution _ _ _ _ Hcon Hne Hout) as (m & x & Hm & [Hf Hopt] & Hlab).
  destruct (Hlab i Hi) as [ja [Hja [H1a Hla]]]. destruct (Hlab k Hk) as [jb [Hjb [H1b Hlb]]].
  rewrite Hla in Ha. injection Ha as <-. rewrite Hlb in Hb. injection Hb as <-.
  destruct (Nat.eq_dec i k) as [<-|Hik].
  { rewrite Hla in Hlb. injection Hlb as ->. lra. }
  destruct (build_model_shape _ _ _ Hm) as [Hr [Hc _]].
  rewrite <- Hr in Hi, Hk. rewrite <- Hc in Hja, Hjb.
  destruct (swap_feasible m x i k ja jb Hf Hi Hk Hik Hja Hjb H1a H1b) as [Hfy Hobj].
  pose proof (Hopt _ Hfy) as Hle. rewrite Hobj in Hle.
  rewrite Hr in Hi, Hk. rewrite Hc in Hja, Hjb.
  rewrite !(build_model_cost data ps m Hm) in Hle by assumption. lra.
Qed.

Lemma mac_swap_stable_witness :
  exists out, MAC.cluster_artists (fun _ => MAC.Solved x_diag) ex_data MAC.profiles = Ok out /\
  forall i k a b, (i < length ex_data)%nat -> (k < length ex_data)%nat ->
    nth i out ∅ !! "Cluster" = Some (VStr a) ->
    nth k out ∅ !! "Cluster" = Some (VStr b) ->
    norm_distance ex_data i a + norm_distance ex_data k b
    <= norm_distance ex_data i b + norm_distance ex_data k a.
Proof.
  eexists. split; [apply (result_ok _ []); vm_compute; reflexivity|].
  apply (mac_swap_stable (fun _ => MAC.Solved x_diag) ex_data MAC.profiles).
  - exact ex_contract.
  - apply (result_ok _ []). vm_compute. reflexivity.
Defined.
